(** * generate_exec_emails.py: the executive e-mail pipeline

    A shallow embedding of [generate_exec_emails.py] and of the part of
    Python and pandas it calls, followed by the properties of the pipeline.

    - A Python [str] is a list of Unicode code points ([list N]).
    - A pandas [DataFrame] is its column labels and its rows, each row an
      index label and a finite map from column label to cell; a column the
      map does not bind is [NaN] in that row.
    - A pandas [Series] is a list of index label and optional cell.
    - An exception is a value of [exn]; a function that can raise returns a
      [result].
    - The file system and the console are a [World] that [main] transforms.

    The cells of the workbook are texts, as the data model of the
    specification has them. Reading the workbook is the only input or output
    that can fail. *)

From Stdlib Require Import NArith Ascii.
From stdpp Require Import gmap strings list fin_maps pretty.

Abbreviation pystr := (list N) (only parsing).

(** ** Python strings *)

(** The code points of a literal of the source. *)
Fixpoint u (s : string) : list N :=
  match s with
  | EmptyString => []
  | String a r => N_of_ascii a :: u r
  end.

Definition in_range (lo hi c : N) : bool := ((lo <=? c) && (c <=? hi))%N.

(** [str.isspace] on one code point: the characters [str.strip()] removes. *)
Definition isspace (c : N) : bool :=
  in_range 9 13 c || in_range 28 32 c || (c =? 133)%N || (c =? 160)%N
  || (c =? 5760)%N || in_range 8192 8202 c || (c =? 8232)%N
  || (c =? 8233)%N || (c =? 8239)%N || (c =? 8287)%N || (c =? 12288)%N.

Fixpoint lstrip (s : list N) : list N :=
  match s with
  | [] => []
  | c :: r => if isspace c then lstrip r else s
  end.

Definition rstrip (s : list N) : list N := rev (lstrip (rev s)).

(** [s.strip()] *)
Definition strip (s : list N) : list N := lstrip (rstrip s).

(** [s.find(c)] for a one-character [c]; [None] is Python's [-1]. *)
Fixpoint find (c : N) (s : list N) : option nat :=
  match s with
  | [] => None
  | x :: r => if (x =? c)%N then Some 0 else S <$> find c r
  end.

(** [s.split(sep, 1)] for a one-character [sep]. *)
Definition split_max1 (sep : N) (s : list N) : list (list N) :=
  match find sep s with
  | None => [s]
  | Some i => [take i s; drop (S i) s]
  end.

Fixpoint startswith (p s : list N) : bool :=
  match p, s with
  | [], _ => true
  | _ :: _, [] => false
  | a :: p', b :: s' => (a =? b)%N && startswith p' s'
  end.

(** [kw in t] *)
Fixpoint contains (kw t : list N) : bool :=
  startswith kw t
  || match t with
     | [] => false
     | _ :: r => contains kw r
     end.

(** [any(f(x) for x in xs)] *)
Definition any {A} (f : A → bool) (xs : list A) : bool := existsb f xs.

(** [s.replace(old, new)] for a one-character [old]. *)
Definition replace (old : N) (new : list N) (s : list N) : list N :=
  flat_map (λ c, if (c =? old)%N then new else [c]) s.

(** A character class of a regular expression: ranges and single characters. *)
Inductive class_item :=
| Range (lo hi : N)
| Lit (c : N).

Definition item_matches (c : N) (it : class_item) : bool :=
  match it with
  | Range lo hi => in_range lo hi c
  | Lit x => (c =? x)%N
  end.

Definition class_matches (items : list class_item) (c : N) : bool :=
  existsb (item_matches c) items.

(** [re.sub("[^...]", repl, s)]: the pattern is one negated character class,
    so every character outside [items] is a match and is replaced. *)
Definition re_sub_negated_class (items : list class_item) (repl s : list N)
  : list N :=
  flat_map (λ c, if class_matches items c then [c] else repl) s.

Definition is_ascii_upper (c : N) : bool := in_range 65 90 c.

Definition ascii_lower (c : N) : N :=
  if is_ascii_upper c then (c + 32)%N else c.

(** ** Exceptions *)

Inductive label :=
| LStr (s : string)
| LInt (n : nat).

Abbreviation Path := (list string) (only parsing).

Inductive exn :=
| FileNotFoundError (p : Path)
| ValueError
| KeyError (missing : list label)
| TypeError
| UnicodeEncodeError.

Inductive result (A : Type) :=
| Ok (a : A)
| Raise (e : exn).
Arguments Ok {A} a.
Arguments Raise {A} e.

#[global] Instance result_ret : MRet result := λ A a, Ok a.
#[global] Instance result_bind : MBind result := λ A B f r,
  match r with
  | Ok a => f a
  | Raise e => Raise e
  end.

(** ** pandas: cells, series and frames *)

Inductive cell :=
| CStr (s : pystr)
| CBool (b : bool).

#[global] Instance cell_eq_dec : EqDecision cell.
Proof. solve_decision. Defined.

#[global] Instance label_eq_dec : EqDecision label.
Proof. solve_decision. Defined.

Abbreviation Series := (list (nat * option cell)) (only parsing).

(** A frame: its column labels and, per row, the index label and the cells
    of the row; a column the row does not bind holds [NaN]. The columns hold
    Python objects, as the columns of texts do that [pd.read_excel] reads;
    columns pandas types as numbers are outside the model. *)
Record DataFrame := {
  columns : list string;
  rows : list (nat * gmap string cell)
}.

(** The index labels of a frame, in row order. *)
Definition index (df : DataFrame) : list nat := (rows df).*1.

(** [df[c]] *)
Definition getitem (c : string) (df : DataFrame) : result Series :=
  if decide (c ∈ columns df)
  then Ok ((λ ir, (ir.1, ir.2 !! c)) <$> rows df)
  else Raise (KeyError [LStr c]).

Definition set_cell (c : string) (v : option cell) (r : gmap string cell)
  : gmap string cell :=
  match v with
  | Some x => <[c:=x]> r
  | None => delete c r
  end.

(** The columns after an assignment to column [c]: a new column is the last. *)
Definition with_column (c : string) (cols : list string) : list string :=
  if decide (c ∈ cols) then cols else cols ++ [c].

(** [df[c] = s], for a series [s] computed from [df] itself: the two share
    their index, so the values are stored position by position. *)
Definition setitem (c : string) (s : Series) (df : DataFrame) : DataFrame :=
  {| columns := with_column c (columns df);
     rows := zip_with (λ ir iv, (ir.1, set_cell c iv.2 ir.2)) (rows df) s |}.

Definition restrict (cols : list string) (r : gmap string cell)
  : gmap string cell :=
  filter (λ kv, kv.1 ∈ cols) r.

(** [df[[c1, ..., cn]]] *)
Definition getitem_list (cols : list string) (df : DataFrame)
  : result DataFrame :=
  match filter (λ c, c ∉ columns df) cols with
  | [] => Ok {| columns := cols;
                rows := (λ ir, (ir.1, restrict cols ir.2)) <$> rows df |}
  | missing => Raise (KeyError (LStr <$> missing))
  end.

(** [df[mask]] for a series [mask] computed from [df] itself. A series of
    booleans selects the rows it marks. A series without elements is not
    read as a mask: pandas takes it for a list of column labels, an empty
    one, and [df[mask]] is the frame with the index of [df] and no column. *)
Definition getitem_mask (mask : Series) (df : DataFrame) : DataFrame :=
  match mask with
  | [] => {| columns := []; rows := (λ ir, (ir.1, ∅)) <$> rows df |}
  | _ :: _ =>
      {| columns := columns df;
         rows := (filter (λ p, p.2.2 = Some (CBool true))
                    (zip (rows df) mask)).*1 |}
  end.

(** [df.drop(columns=cols)] *)
Definition drop_columns (cols : list string) (df : DataFrame)
  : result DataFrame :=
  match filter (λ c, c ∉ columns df) cols with
  | [] => Ok {| columns := filter (λ c, c ∉ cols) (columns df);
                rows := (λ ir, (ir.1, foldr delete ir.2 cols)) <$> rows df |}
  | missing => Raise (KeyError (LStr <$> missing))
  end.

(** [df.dropna(subset=cols)]: the rows with a value in each of [cols]. *)
Definition dropna_subset (cols : list string) (df : DataFrame)
  : result DataFrame :=
  match filter (λ c, c ∉ columns df) cols with
  | [] => Ok {| columns := columns df;
                rows := filter (λ ir, Forall (λ c, is_Some (ir.2 !! c)) cols)
                          (rows df) |}
  | missing => Raise (KeyError (LStr <$> missing))
  end.

(** [df.dropna()] *)
Definition dropna (df : DataFrame) : DataFrame :=
  {| columns := columns df;
     rows := filter (λ ir, Forall (λ c, is_Some (ir.2 !! c)) (columns df))
               (rows df) |}.

(** [df.head(n)] for [n >= 0] *)
Definition head (n : nat) (df : DataFrame) : DataFrame :=
  {| columns := columns df; rows := take n (rows df) |}.

(** A [.str] method on one element: a value that is not a string gives
    [NaN]. *)
Definition str_method (f : list N → list N) (v : option cell) : option cell :=
  match v with
  | Some (CStr s) => Some (CStr (f s))
  | _ => None
  end.

(** [s.str.strip()] *)
Definition str_strip (s : Series) : Series :=
  (λ iv, (iv.1, str_method strip iv.2)) <$> s.

(** [s.apply(f)]: [f] is called on every element, [NaN] included, and the
    first exception it raises ends the call. *)
Fixpoint apply (f : option cell → result (option cell)) (s : Series)
  : result Series :=
  match s with
  | [] => Ok []
  | iv :: rest =>
      y ← f iv.2;
      ys ← apply f rest;
      mret ((iv.1, y) :: ys)
  end.

(** The frame [s.str.split(sep, n=1, expand=True)] returns: per row the
    parts ([None] for a row that is [NaN]); its columns are [0 .. width-1]
    where [width] is the largest number of parts of a row, a [NaN] row
    counting for one. *)
Definition str_split_expand (sep : N) (s : Series)
  : list (nat * option (list (list N))) :=
  (λ iv, (iv.1, match iv.2 with
                | Some (CStr x) => Some (split_max1 sep x)
                | _ => None
                end)) <$> s.

Definition width (parts : list (nat * option (list (list N)))) : nat :=
  foldr (λ ip w, match ip.2 with
                 | Some ps => length ps `max` w
                 | None => 1 `max` w
                 end) 0 parts.

(** [name_split[k]] on such a frame. *)
Definition getitem_int (k : nat) (parts : list (nat * option (list (list N))))
  : result Series :=
  if decide (k < width parts)
  then Ok ((λ ip, (ip.1, ps ← ip.2; CStr <$> ps !! k)) <$> parts)
  else Raise (KeyError [LInt k]).

(** [a + b] on two elements: [NaN] is passed on, two strings are
    concatenated, anything else is a [TypeError]. *)
Definition add_cells (a b : option cell) : result (option cell) :=
  match a, b with
  | None, _ | _, None => Ok None
  | Some (CStr x), Some (CStr y) => Ok (Some (CStr (x ++ y)))
  | _, _ => Raise TypeError
  end.

(** [s + t] for two series of one frame. *)
Fixpoint add_series (s t : Series) : result Series :=
  match s, t with
  | iv :: s', jw :: t' =>
      y ← add_cells iv.2 jw.2;
      ys ← add_series s' t';
      mret ((iv.1, y) :: ys)
  | _, _ => Ok []
  end.

(** [s + lit] for a string literal [lit]. *)
Definition add_str (s : Series) (lit : list N) : result Series :=
  add_series s ((λ iv, (iv.1, Some (CStr lit))) <$> s).

(** ** The file system and the console *)

(** What [pd.read_excel] reads from a workbook whose cells are texts: the
    header and, per data row, the text of each cell. A cell pandas takes for
    a missing value (a blank cell, the empty text, one of its markers such as
    "NA") is a column the row does not bind, or the empty text. Cells that
    are numbers or dates are outside the model, and so is the type pandas
    gives a column that holds no text. *)
Record Sheet := {
  sheet_columns : list string;
  sheet_rows : list (gmap string pystr)
}.

(** What [to_csv(index=False)] writes: the header and the cells of each row
    in header order. *)
Record Csv := {
  csv_header : list string;
  csv_records : list (list (option cell))
}.

Inductive message :=
| Generated (n : nat)
| SavedTo (p : Path).

(** The files and directories a run can see, and the lines it has printed.
    Workbooks and CSV files are kept apart by their kind; that a directory
    cannot be made or a file cannot be written (a file in the way, a missing
    permission) is outside the model. *)
Record World := {
  excel_files : gmap (list string) Sheet;
  directories : gset (list string);
  csv_files : gmap (list string) Csv;
  stdout : list message
}.

(** The console: the characters the encoding of the standard output has. *)
Class Console := Build_Console {
  encodes : N → bool
}.

(** A blank cell is read as [NaN]. *)
Definition parse_cell (s : pystr) : option cell :=
  match s with
  | [] => None
  | _ => Some (CStr s)
  end.

Definition frame_of_sheet (sh : Sheet) : DataFrame :=
  {| columns := sheet_columns sh;
     rows := imap (λ i raw, (i, omap parse_cell raw)) (sheet_rows sh) |}.

(** [pd.read_excel(path)]: a path without a file raises
    [FileNotFoundError]; a file that is not a workbook (a CSV file) raises
    [ValueError], as pandas cannot tell the format of the file. *)
Definition read_excel (w : World) (path : Path) : result DataFrame :=
  match excel_files w !! path with
  | Some sh => Ok (frame_of_sheet sh)
  | None =>
      if decide (is_Some (csv_files w !! path))
      then Raise ValueError
      else Raise (FileNotFoundError path)
  end.

(** [path.parent] *)
Definition parent (p : Path) : Path := removelast p.

(** [path.mkdir(parents=True, exist_ok=True)], where the directory can be
    made. *)
Definition mkdir_parents (p : Path) (w : World) : World :=
  {| excel_files := excel_files w;
     directories := directories w
                    ∪ list_to_set ((λ n, take n p) <$> seq 0 (S (length p)));
     csv_files := csv_files w;
     stdout := stdout w |}.

Definition csv_of (df : DataFrame) : Csv :=
  {| csv_header := columns df;
     csv_records := (λ ir, (λ c, ir.2 !! c) <$> columns df) <$> rows df |}.

(** [df.to_csv(path, index=False)], where the file can be written. *)
Definition to_csv (path : Path) (df : DataFrame) (w : World) : World :=
  {| excel_files := excel_files w;
     directories := directories w;
     csv_files := <[path := csv_of df]> (csv_files w);
     stdout := stdout w |}.

(** [str(path)], with the separator of POSIX. *)
Definition str_path (p : Path) : pystr := u (String.concat "/" p).

(** The line [print] writes for a message: the two f-strings of [main],
    whose literals start with characters outside US-ASCII. *)
Definition text (m : message) : pystr :=
  match m with
  | Generated n =>
      [8218; 250; 214]%N ++ u " Generated " ++ u (pretty n)
      ++ u " senior executive email records"
  | SavedTo p =>
      [63743; 252; 236; 197]%N ++ u " Output saved to: " ++ str_path p
  end.

(** A line on the standard output. *)
Definition emit (m : message) (w : World) : World :=
  {| excel_files := excel_files w;
     directories := directories w;
     csv_files := csv_files w;
     stdout := stdout w ++ [m] |}.

(** [print(line)]: a line with a character the console cannot encode raises
    [UnicodeEncodeError], and nothing of it is written. *)
Definition print `{Console} (m : message) (w : World) : World * result () :=
  if forallb encodes (text m)
  then (emit m w, Ok ())
  else (w, Raise UnicodeEncodeError).

(** ** CONFIG *)

Record Config := {
  INPUT_FILE : Path;
  OUTPUT_FILE : Path;
  MAX_EXECUTIVES : nat
}.

(** The constants of the script, for the directory [script_dir] it is in. *)
Definition default_config (script_dir : Path) : Config :=
  {| INPUT_FILE := script_dir ++ ["input"; "cmo_videos_names.xlsx"];
     OUTPUT_FILE := script_dir ++ ["output"; "senior_exec_emails.csv"];
     MAX_EXECUTIVES := 50 |}.

(** ** The stages *)

(** [str.lower()] maps a US-ASCII character to its lower-case letter. What
    it maps another character to is decided by the Unicode tables of the
    interpreter, from the character and, for one Greek letter, the text
    before and after it: [lower_nonascii before c after]. The pipeline is
    verified for every such table. *)
Class UnicodeTables := Build_UnicodeTables {
  lower_nonascii : pystr → N → pystr → pystr
}.

Section Pipeline.

Context `{UnicodeTables} {console : Console}.

Fixpoint lower_from (before s : pystr) : pystr :=
  match s with
  | [] => []
  | c :: rest =>
      (if (c <? 128)%N then [ascii_lower c] else lower_nonascii before c rest)
      ++ lower_from (before ++ [c]) rest
  end.

(** [s.lower()] *)
Definition lower (s : pystr) : pystr := lower_from [] s.

(** [s.str.lower()] *)
Definition str_lower (s : Series) : Series :=
  (λ iv, (iv.1, str_method lower iv.2)) <$> s.

(** STEP 1: LOAD DATA *)
Definition load_data (w : World) (file_path : Path) : result DataFrame :=
  df ← read_excel w file_path;
  df ← getitem_list ["Name"; "Title"; "Company"] df;
  mret (dropna df).

Definition senior_keywords : list pystr :=
  [u "chief"; u "ceo"; u "cmo"; u "cto"; u "cfo"; u "coo";
   u "president"; u "founder"; u "co-founder"; u "evp"; u "svp"].

(** [lambda title: any(keyword in title for keyword in senior_keywords)];
    [in] on a title that is [NaN] is a [TypeError]. *)
Definition is_senior_title (title : option cell) : result (option cell) :=
  match title with
  | Some (CStr t) =>
      Ok (Some (CBool (any (λ keyword, contains keyword t) senior_keywords)))
  | _ => Raise TypeError
  end.

(** STEP 2: FILTER SENIOR EXECUTIVES *)
Definition filter_senior_execs (df : DataFrame) : result DataFrame :=
  title ← getitem "Title" df;
  is_senior ← apply is_senior_title (str_lower title);
  let df := setitem "is_senior" is_senior df in
  mask ← getitem "is_senior" df;
  let senior_df := getitem_mask mask df in
  drop_columns ["is_senior"] senior_df.

(** STEP 3: NORMALIZE NAMES *)
Definition split_names (df : DataFrame) : result DataFrame :=
  name ← getitem "Name" df;
  let name_split := str_split_expand 32 (str_strip name) in
  first ← getitem_int 0 name_split;
  let df := setitem "FirstName" first df in
  last ← getitem_int 1 name_split;
  let df := setitem "LastName" last df in
  dropna_subset ["LastName"] df.

(** STEP 4: INFER EMAIL DOMAIN *)
Definition infer_domain (company : pystr) : pystr :=
  let cleaned :=
    re_sub_negated_class
      [Range 97 122; Range 65 90; Range 48 57; Lit 32] [] company in
  let domain := replace 32 [] (lower cleaned) in
  domain ++ u ".com".

(** [infer_domain] on an element of the column: [re.sub] on a value that is
    not a string is a [TypeError]. *)
Definition infer_domain_cell (company : option cell) : result (option cell) :=
  match company with
  | Some (CStr c) => Ok (Some (CStr (infer_domain c)))
  | _ => Raise TypeError
  end.

Definition add_domains (df : DataFrame) : result DataFrame :=
  company ← getitem "Company" df;
  domain ← apply infer_domain_cell company;
  mret (setitem "Domain" domain df).

(** STEP 5: GENERATE EMAILS *)
Definition generate_emails (df : DataFrame) : result DataFrame :=
  first ← getitem "FirstName" df;
  e ← add_str (str_lower first) (u ".");
  last ← getitem "LastName" df;
  e ← add_series e (str_lower last);
  e ← add_str e (u "@");
  domain ← getitem "Domain" df;
  email_1 ← add_series e domain;
  let df := setitem "Email_1" email_1 df in
  first ← getitem "FirstName" df;
  e ← add_str (str_lower first) (u "@");
  domain ← getitem "Domain" df;
  email_2 ← add_series e domain;
  mret (setitem "Email_2" email_2 df).

Definition final_columns : list string :=
  ["FirstName"; "LastName"; "Title"; "Company"; "Email_1"; "Email_2"].

(** The five stages of [main], in its order. *)
Definition stages (cfg : Config) (w : World) : result DataFrame :=
  df ← load_data w (INPUT_FILE cfg);
  df ← filter_senior_execs df;
  df ← split_names df;
  df ← add_domains df;
  generate_emails df.

(** STEP 6: PIPELINE EXECUTION. The result is the world [main] leaves and
    the exception it ends with, if any. *)
Definition main (cfg : Config) (w : World) : World * result () :=
  match df ← stages cfg w;
        final_df ← getitem_list final_columns df;
        mret (head (MAX_EXECUTIVES cfg) final_df) with
  | Raise e => (w, Raise e)
  | Ok final_df =>
      let w := mkdir_parents (parent (OUTPUT_FILE cfg)) w in
      let w := to_csv (OUTPUT_FILE cfg) final_df w in
      match print (Generated (length (rows final_df))) w with
      | (w, Raise e) => (w, Raise e)
      | (w, Ok _) => print (SavedTo (OUTPUT_FILE cfg)) w
      end
  end.

End Pipeline.

(** ** The pipeline, row by row

    What each stage does to one row, as a function of that row alone. The
    theorems below relate the stages, which work column by column, to these. *)

Section Rows.

Context `{UnicodeTables}.

(** The value the [is_senior] column takes in a row. *)
Definition is_senior (r : gmap string cell) : bool :=
  match r !! "Title" with
  | Some (CStr t) => any (λ keyword, contains keyword (lower t)) senior_keywords
  | _ => false
  end.

Definition load_row (x : nat * gmap string pystr)
  : option (nat * gmap string cell) :=
  let r := restrict ["Name"; "Title"; "Company"] (omap parse_cell x.2) in
  if decide (Forall (λ c, is_Some (r !! c)) ["Name"; "Title"; "Company"])
  then Some (x.1, r)
  else None.

Definition filter_row (ir : nat * gmap string cell)
  : option (nat * gmap string cell) :=
  if is_senior ir.2 then Some (ir.1, delete "is_senior" ir.2) else None.

(** The parts [name_split] holds for a row. *)
Definition name_parts (r : gmap string cell) : option (list pystr) :=
  match r !! "Name" with
  | Some (CStr x) => Some (split_max1 32 (strip x))
  | _ => None
  end.

Definition split_row (ir : nat * gmap string cell)
  : option (nat * gmap string cell) :=
  match ir.2 !! "Name" with
  | Some (CStr x) =>
      match find 32 (strip x) with
      | Some k =>
          Some (ir.1, <["LastName" := CStr (drop (S k) (strip x))]>
                        (<["FirstName" := CStr (take k (strip x))]> ir.2))
      | None => None
      end
  | _ => None
  end.

Definition domain_row (ir : nat * gmap string cell)
  : nat * gmap string cell :=
  match ir.2 !! "Company" with
  | Some (CStr c) => (ir.1, <["Domain" := CStr (infer_domain c)]> ir.2)
  | _ => ir
  end.

Definition email_row (ir : nat * gmap string cell)
  : nat * gmap string cell :=
  match ir.2 !! "FirstName", ir.2 !! "LastName", ir.2 !! "Domain" with
  | Some (CStr f), Some (CStr l), Some (CStr d) =>
      (ir.1, <["Email_2" := CStr (lower f ++ u "@" ++ d)]>
               (<["Email_1" := CStr (lower f ++ u "." ++ lower l ++ u "@" ++ d)]>
                  ir.2))
  | _, _, _ => ir
  end.

(** A row of the workbook through all five stages; [None] when a stage
    drops it. *)
Definition pipeline_row (x : nat * gmap string pystr)
  : option (nat * gmap string cell) :=
  ir ← load_row x;
  ir ← filter_row ir;
  ir ← split_row ir;
  Some (email_row (domain_row ir)).

End Rows.

(** The rows of a workbook with their positions, which [pd.read_excel] makes
    their index labels. *)
Definition indexed (sh : Sheet) : list (nat * gmap string pystr) :=
  imap (λ i raw, (i, raw)) (sheet_rows sh).

Definition all_columns : list string :=
  ["Name"; "Title"; "Company"; "FirstName"; "LastName"; "Domain";
   "Email_1"; "Email_2"].

Section Frames.

Context `{UnicodeTables} {console : Console}.

(** The rows of a workbook after each stage. *)
Definition loaded_rows (sh : Sheet) := omap load_row (indexed sh).
Definition senior_rows (sh : Sheet) := omap filter_row (loaded_rows sh).
Definition named_rows (sh : Sheet) := omap split_row (senior_rows sh).
Definition final_rows (sh : Sheet) := omap pipeline_row (indexed sh).

(** The frames of a run on a workbook, stage by stage. *)
Definition loaded_frame (sh : Sheet) : DataFrame :=
  {| columns := ["Name"; "Title"; "Company"]; rows := loaded_rows sh |}.
Definition senior_frame (sh : Sheet) : DataFrame :=
  {| columns := ["Name"; "Title"; "Company"]; rows := senior_rows sh |}.
Definition named_frame (sh : Sheet) : DataFrame :=
  {| columns := ["Name"; "Title"; "Company"; "FirstName"; "LastName"];
     rows := named_rows sh |}.
Definition domain_frame (sh : Sheet) : DataFrame :=
  {| columns := ["Name"; "Title"; "Company"; "FirstName"; "LastName"; "Domain"];
     rows := domain_row <$> named_rows sh |}.
Definition email_frame (sh : Sheet) : DataFrame :=
  {| columns := all_columns; rows := final_rows sh |}.

(** The frame [final_df] of [main] for a workbook. *)
Definition final_frame (cfg : Config) (sh : Sheet) : DataFrame :=
  head (MAX_EXECUTIVES cfg)
    {| columns := final_columns;
       rows := (λ ir, (ir.1, restrict final_columns ir.2)) <$> final_rows sh |}.

(** The world after the export of a run: the directory made and the file
    written, nothing printed yet; and the world a run that succeeds
    leaves. *)
Definition exported (cfg : Config) (sh : Sheet) (w : World) : World :=
  to_csv (OUTPUT_FILE cfg) (final_frame cfg sh)
    (mkdir_parents (parent (OUTPUT_FILE cfg)) w).

Definition written (cfg : Config) (sh : Sheet) (w : World) : World :=
  emit (SavedTo (OUTPUT_FILE cfg))
    (emit (Generated (length (rows (final_frame cfg sh)))) (exported cfg sh w)).

(** The console can encode the two lines of a run on a workbook. *)
Definition printable (cfg : Config) (sh : Sheet) : Prop :=
  forallb encodes (text (Generated (length (rows (final_frame cfg sh))))) = true
  ∧ forallb encodes (text (SavedTo (OUTPUT_FILE cfg))) = true.

(** The two lines of [main] after the export, for [n] records. *)
Definition report (cfg : Config) (n : nat) (w : World) : World * result () :=
  match print (Generated n) w with
  | (w, Raise e) => (w, Raise e)
  | (w, Ok _) => print (SavedTo (OUTPUT_FILE cfg)) w
  end.

(** What [read_excel] raises on a path without a workbook. *)
Definition unreadable (w : World) (path : Path) : exn :=
  if decide (is_Some (csv_files w !! path))
  then ValueError
  else FileNotFoundError path.

(** The outcome of a run, case by case: no workbook; a column missing; no
    row kept by the Loader, so that the mask of the Executive Filter has no
    element and its frame no column [is_senior] to drop; no row left for
    [split_names], so that [name_split] has no column 0; no row with a
    two-part name, so that it has no column 1; the file written, and then
    the two lines printed, or as many of them as the console can encode. *)
Definition outcome (cfg : Config) (w : World) : World * result () :=
  match excel_files w !! INPUT_FILE cfg with
  | None => (w, Raise (unreadable w (INPUT_FILE cfg)))
  | Some sh =>
      match filter (λ c, c ∉ sheet_columns sh) ["Name"; "Title"; "Company"] with
      | [] =>
          match loaded_rows sh, senior_rows sh, named_rows sh with
          | [], _, _ => (w, Raise (KeyError [LStr "is_senior"]))
          | _ :: _, [], _ => (w, Raise (KeyError [LInt 0]))
          | _ :: _, _ :: _, [] => (w, Raise (KeyError [LInt 1]))
          | _ :: _, _ :: _, _ :: _ =>
              report cfg (length (rows (final_frame cfg sh))) (exported cfg sh w)
          end
      | missing => (w, Raise (KeyError (LStr <$> missing)))
      end
  end.

End Frames.

(** A row holds a string in column [c]. *)
Definition has_text (c : string) (r : gmap string cell) : Prop :=
  ∃ s, r !! c = Some (CStr s).

(** Row [ir] of a frame holds, in the three loaded columns, the text of row
    [ir.1] of the workbook, none of it empty. *)
Definition from_sheet (sh : Sheet) (ir : nat * gmap string cell) : Prop :=
  ∃ raw, sheet_rows sh !! ir.1 = Some raw
    ∧ ∀ c, c ∈ ["Name"; "Title"; "Company"] →
           ∃ s, raw !! c = Some s ∧ s ≠ [] ∧ ir.2 !! c = Some (CStr s).

(** ** The specification's words *)

(** [kw] occurs in [t] as a substring. *)
Definition is_substring (kw t : pystr) : Prop :=
  ∃ pre post, t = pre ++ kw ++ post.

(** A cell of the workbook that is missing or empty. *)
Definition blank (raw : gmap string pystr) (c : string) : Prop :=
  raw !! c = None ∨ raw !! c = Some [].

(** A US-ASCII letter, digit or space. *)
Definition is_ascii_letter_digit_space (c : N) : bool :=
  in_range 97 122 c || in_range 65 90 c || in_range 48 57 c || (c =? 32)%N.

(** Section 4.4: strip every character that is not a US-ASCII letter, digit
    or space, lowercase, remove all spaces. *)
Definition spec_domain_stem (company : pystr) : pystr :=
  filter (λ c, c ≠ 32%N)
    (ascii_lower
       <$> filter (λ c, is_ascii_letter_digit_space c = true) company).

(** The characters of a domain stem: lower-case US-ASCII letters and digits. *)
Definition is_stem_char (c : N) : bool := in_range 97 122 c || in_range 48 57 c.

(** ... and append ".com". *)
Definition spec_infer_domain (company : pystr) : pystr :=
  spec_domain_stem company ++ u ".com".

(** Section 4.3 as worded: the first whitespace-delimited token of a text,
    and what follows that token. *)
Fixpoint first_token (s : pystr) : pystr :=
  match s with
  | [] => []
  | c :: r => if isspace c then [] else c :: first_token r
  end.

Fixpoint after_first_token (s : pystr) : pystr :=
  match s with
  | [] => []
  | c :: r => if isspace c then s else after_first_token r
  end.

(** Trim, then split on the first whitespace run; [None] when the trimmed
    name holds no whitespace. *)
Definition spec_split_name (name : pystr) : option (pystr * pystr) :=
  let t := strip name in
  match after_first_token t with
  | [] => None
  | rest => Some (first_token t, lstrip rest)
  end.


(** A row of the workbook survives every filtering stage: its three cells
    are not blank, its lowered title holds a keyword, and its trimmed name
    holds a space. *)
Definition survives `{UnicodeTables} (raw : gmap string pystr) : Prop :=
  ∃ name title company,
    raw !! "Name" = Some name ∧ name ≠ []
    ∧ raw !! "Title" = Some title ∧ title ≠ []
    ∧ raw !! "Company" = Some company ∧ company ≠ []
    ∧ (∃ kw, kw ∈ senior_keywords ∧ is_substring kw (lower title))
    ∧ 32%N ∈ strip name.

(** The spec's two fatal errors, as the exceptions of a run: a workbook that
    is missing or cannot be read, and a [KeyError] that names expected
    columns. *)
Definition FileError (e : exn) : Prop :=
  (∃ p, e = FileNotFoundError p) ∨ e = ValueError.
Definition FormatError (e : exn) : Prop :=
  ∃ missing, missing ≠ [] ∧ missing ⊆ ["Name"; "Title"; "Company"]
    ∧ e = KeyError (LStr <$> missing).

(** ** Texts, cells and the record of a row *)

(** A US-ASCII letter or digit. *)
Definition is_ascii_letter_digit (c : N) : bool :=
  in_range 97 122 c || in_range 65 90 c || in_range 48 57 c.

(** All the characters of [s] are whitespace. *)
Definition all_space (s : pystr) : Prop := Forall (λ c, isspace c = true) s.

#[global] Instance has_text_dec c r : Decision (has_text c r).
Proof.
  unfold has_text. destruct (r !! c) as [[s|b]|].
  - left. by exists s.
  - right. by intros [s Hs].
  - right. by intros [s Hs].
Defined.

(** What the five stages and the column selection of [main] make of one row
    of the workbook, as a function of that row alone: the six cells of its
    record, or [None] for a row that a stage drops. *)
Definition record_of `{UnicodeTables} (raw : gmap string pystr)
  : option (list (option cell)) :=
  name ← raw !! "Name";
  title ← raw !! "Title";
  company ← raw !! "Company";
  if decide (name ≠ [] ∧ title ≠ [] ∧ company ≠ [])
  then
    if any (λ keyword, contains keyword (lower title)) senior_keywords
    then
      k ← find 32 (strip name);
      let first := take k (strip name) in
      let last := drop (S k) (strip name) in
      let domain := infer_domain company in
      Some [ Some (CStr first); Some (CStr last);
             Some (CStr title); Some (CStr company);
             Some (CStr (lower first ++ u "." ++ lower last ++ u "@" ++ domain));
             Some (CStr (lower first ++ u "@" ++ domain)) ]
    else None
  else None.

(** ** Inputs for the examples *)

(** Tables that leave every character outside US-ASCII as it is. *)
Definition unchanged : UnicodeTables :=
  {| lower_nonascii := λ _ c _, [c] |}.


(** A console that can encode every character, as one with UTF-8 does, and
    one that can encode US-ASCII only. *)
Definition utf8_console : Console := {| encodes := λ _, true |}.

Definition demo_sheet : Sheet :=
  {| sheet_columns := ["Name"; "Title"; "Company"; "Notes"];
     sheet_rows :=
       [ {[ "Name" := u "Jane Doe"; "Title" := u "Chief Marketing Officer";
            "Company" := u "World Surf League" ]};
         {[ "Name" := u "Bob Stone"; "Title" := u "Software Engineer";
            "Company" := u "Acme, Inc." ]};
         {[ "Name" := u " Mary Ann Smith ";
            "Title" := u "Vice President of Engineering";
            "Company" := u "AT&T"; "Notes" := u "x" ]};
         {[ "Name" := u "Cher"; "Title" := u "CEO"; "Company" := u "Cher Co" ]};
         {[ "Name" := u "No Title"; "Company" := u "Cher Co" ]} ] |}.

Definition demo_config : Config := default_config ["srv"].

Definition demo_world : World :=
  {| excel_files := {[ INPUT_FILE demo_config := demo_sheet ]};
     directories := ∅;
     csv_files := ∅;
     stdout := [] |}.

Definition titles_frame : DataFrame :=
  {| columns := ["Title"];
     rows := [ (0, {[ "Title" := CStr (u "Vice President of Engineering") ]});
               (1, {[ "Title" := CStr (u "Software Engineer") ]}) ] |}.

Definition names_frame : DataFrame :=
  {| columns := ["Name"];
     rows := [ (0, {[ "Name" := CStr (u "A B C") ]});
               (1, {[ "Name" := CStr (u "Cher") ]}) ] |}.

(** A name with two spaces between its tokens, a name with a tabulator. *)
Definition two_spaces_frame : DataFrame :=
  {| columns := ["Name"];
     rows := [ (0, {[ "Name" := CStr (u "A  B") ]}) ] |}.

Definition tab_frame : DataFrame :=
  {| columns := ["Name"];
     rows := [ (0, {[ "Name" := CStr (u "A" ++ [9%N] ++ u "B") ]});
               (1, {[ "Name" := CStr (u "C D") ]}) ] |}.


(** The fixture of the specification: one row. *)
Definition fixture_world : World :=
  {| excel_files :=
       {[ INPUT_FILE demo_config :=
            {| sheet_columns := ["Name"; "Title"; "Company"];
               sheet_rows :=
                 [ {[ "Name" := u "Jane Doe";
                      "Title" := u "Chief Marketing Officer";
                      "Company" := u "World Surf League" ]} ] |} ]};
     directories := ∅;
     csv_files := ∅;
     stdout := [] |}.

(** A workbook whose only executive has a one-token name. *)
Definition one_token_sheet : Sheet :=
  {| sheet_columns := ["Name"; "Title"; "Company"];
     sheet_rows :=
       [ {[ "Name" := u "Cher"; "Title" := u "CEO"; "Company" := u "Cher Co" ]};
         {[ "Name" := u "Bob Stone"; "Title" := u "Software Engineer";
            "Company" := u "Acme, Inc." ]} ] |}.

Definition one_token_world : World :=
  {| excel_files := {[ INPUT_FILE demo_config := one_token_sheet ]};
     directories := ∅;
     csv_files := ∅;
     stdout := [] |}.


(** The workbook of [fixture_world]. *)
Definition fixture_sheet : Sheet :=
  {| sheet_columns := ["Name"; "Title"; "Company"];
     sheet_rows :=
       [ {[ "Name" := u "Jane Doe"; "Title" := u "Chief Marketing Officer";
            "Company" := u "World Surf League" ]} ] |}.



Definition companies_frame : DataFrame :=
  {| columns := ["Company"];
     rows := [ (0, {[ "Company" := CStr (u "AT&T") ]});
               (1, {[ "Company" := CStr (u "World Surf League") ]}) ] |}.

(** A record set with the three fields and no record, and a workbook with
    the three headers and no data row. *)
Definition no_records : DataFrame :=
  {| columns := ["Name"; "Title"; "Company"]; rows := [] |}.

Definition headers_only_world : World :=
  {| excel_files :=
       {[ INPUT_FILE demo_config :=
            {| sheet_columns := ["Name"; "Title"; "Company"];
               sheet_rows := [] |} ]};
     directories := ∅;
     csv_files := ∅;
     stdout := [] |}.

(** A frame whose second row has no title. *)
Definition missing_title_frame : DataFrame :=
  {| columns := ["Title"];
     rows := [ (0, {[ "Title" := CStr (u "CEO") ]}); (1, ∅) ] |}.

(** ** Python strings: properties *)

Lemma startswith_spec p s : startswith p s = true ↔ ∃ post, s = p ++ post.
Proof.
  revert s. induction p as [|a p IH]; intros s; simpl.
  - split; [eauto | done].
  - destruct s as [|b s].
    + split; [done | intros [post Hp]; discriminate].
    + rewrite andb_true_iff, N.eqb_eq, IH. split.
      * intros [-> [post ->]]. eauto.
      * intros [post Hp]. simplify_eq. eauto.
Qed.

Lemma contains_spec kw t : contains kw t = true ↔ is_substring kw t.
Proof.
  unfold is_substring. induction t as [|c t IH]; simpl.
  - rewrite orb_false_r, startswith_spec. split.
    + intros [post Hp]. exists [], post. done.
    + intros (pre & post & Hp). destruct pre; simpl in *.
      * eauto.
      * discriminate.
  - rewrite orb_true_iff, startswith_spec, IH. split.
    + intros [[post Hp] | (pre & post & Hp)].
      * exists [], post. done.
      * exists (c :: pre), post. rewrite Hp. done.
    + intros (pre & post & Hp). destruct pre as [|x pre]; simpl in *.
      * left. eauto.
      * right. simplify_eq. eauto.
Qed.

Lemma find_None c s : find c s = None ↔ c ∉ s.
Proof.
  induction s as [|x s IH]; simpl.
  - split; [intros _; apply not_elem_of_nil | done].
  - destruct (N.eqb_spec x c) as [->|Hne].
    + split; [done | intros Hn; destruct Hn; left].
    + rewrite fmap_None, IH, not_elem_of_cons.
      split; [intros Hs; split; [congruence | done] | intros [_ Hs]; done].
Qed.

Lemma find_Some c s k :
  find c s = Some k ↔ s = take k s ++ c :: drop (S k) s ∧ c ∉ take k s.
Proof.
  revert k. induction s as [|x s IH]; intros k; simpl.
  - split; [done |]. intros [Hs _]. destruct k; discriminate.
  - destruct (N.eqb_spec x c) as [->|Hne].
    + split.
      * intros [= <-]. simpl. rewrite drop_0. split; [done | apply not_elem_of_nil].
      * intros [Hs Hn]. destruct k as [|k]; [done |].
        simpl in Hn. destruct Hn. left.
    + rewrite fmap_Some. split.
      * intros (j & Hj & ->). apply IH in Hj as [Hs Hn]. simpl.
        split; [congruence |]. rewrite not_elem_of_cons. done.
      * intros [Hs Hn]. destruct k as [|k]; simpl in *.
        { simplify_eq. }
        exists k. split; [| done]. apply IH.
        rewrite not_elem_of_cons in Hn. split; [congruence | tauto].
Qed.

(** Where [find] stops is the only way to cut [s] at a first [c]. *)
Lemma find_app c (a b : pystr) : c ∉ a → find c (a ++ c :: b) = Some (length a).
Proof.
  induction a as [|x a IH]; simpl; intros Hn.
  - rewrite N.eqb_refl. done.
  - rewrite not_elem_of_cons in Hn. destruct Hn as [Hx Ha].
    destruct (N.eqb_spec x c); [congruence |]. rewrite IH; done.
Qed.

Lemma lstrip_head s : match lstrip s with c :: _ => isspace c = false | [] => True end.
Proof.
  induction s as [|c s IH]; simpl; [done |].
  destruct (isspace c) eqn:Hc; [done | simpl; done].
Qed.

(** A trimmed name does not start with a space: the text before its first
    space is not empty. *)
Lemma strip_first_nonempty x first last :
  strip x = first ++ 32%N :: last → first ≠ [].
Proof.
  intros Hx ->. pose proof (lstrip_head (rstrip x)) as Hh.
  unfold strip in Hx. rewrite Hx in Hh. simpl in Hh. discriminate.
Qed.

Lemma class_matches_spec c :
  class_matches [Range 97 122; Range 65 90; Range 48 57; Lit 32] c
  = is_ascii_letter_digit_space c.
Proof.
  unfold class_matches, is_ascii_letter_digit_space. simpl.
  rewrite orb_false_r, !orb_assoc. done.
Qed.

Lemma is_ascii_letter_digit_space_lt c :
  is_ascii_letter_digit_space c = true → (c < 128)%N.
Proof.
  unfold is_ascii_letter_digit_space, in_range.
  rewrite !orb_true_iff, !andb_true_iff, !N.leb_le, N.eqb_eq. lia.
Qed.

Lemma re_sub_delete items s :
  re_sub_negated_class items [] s = filter (λ c, class_matches items c = true) s.
Proof.
  unfold re_sub_negated_class. induction s as [|c s IH]; simpl; [done |].
  rewrite IH. destruct (class_matches items c) eqn:Hc; simpl.
  - rewrite filter_cons_True; done.
  - rewrite filter_cons_False; [done | congruence].
Qed.

Lemma replace_delete old s : replace old [] s = filter (λ c, c ≠ old) s.
Proof.
  unfold replace. induction s as [|c s IH]; simpl; [done |].
  rewrite IH. destruct (N.eqb_spec c old) as [->|Hne]; simpl.
  - rewrite filter_cons_False; [done | intros Hn; apply Hn; done].
  - rewrite filter_cons_True; done.
Qed.

Section StringProperties.

Context `{UnicodeTables}.

Lemma lower_from_ascii before s :
  Forall (λ c, (c < 128)%N) s → lower_from before s = ascii_lower <$> s.
Proof.
  intros Hs. revert before. induction Hs as [|c s Hc _ IH]; intros before.
  - done.
  - simpl. apply N.ltb_lt in Hc. rewrite Hc, IH. done.
Qed.

Lemma lower_ascii s : Forall (λ c, (c < 128)%N) s → lower s = ascii_lower <$> s.
Proof. apply lower_from_ascii. Qed.

(** The code of [infer_domain] computes the domain the specification words. *)
Lemma infer_domain_spec company : infer_domain company = spec_infer_domain company.
Proof.
  unfold infer_domain, spec_infer_domain, spec_domain_stem.
  rewrite re_sub_delete, replace_delete. f_equal.
  rewrite lower_ascii.
  - f_equal. f_equal. apply list_filter_iff. intros c.
    rewrite class_matches_spec. done.
  - apply Forall_forall. intros c Hc. apply list_elem_of_filter in Hc as [Hc _].
    rewrite class_matches_spec in Hc. apply is_ascii_letter_digit_space_lt. done.
Qed.

(** A space of the text is a space of the lowered text. *)
Lemma lower_from_space before s : 32%N ∈ s → 32%N ∈ lower_from before s.
Proof.
  revert before. induction s as [|c s IH]; intros before Hs.
  - by apply elem_of_nil in Hs.
  - simpl. apply elem_of_app. apply elem_of_cons in Hs as [<- | Hs].
    + left. simpl. left.
    + right. apply IH. done.
Qed.

Lemma ascii_lower_not_upper c : is_ascii_upper (ascii_lower c) = false.
Proof.
  unfold ascii_lower. destruct (is_ascii_upper c) eqn:Hc; [| done].
  unfold is_ascii_upper, in_range in *.
  apply andb_true_iff in Hc as [H1 H2]. apply N.leb_le in H1, H2.
  apply andb_false_iff. right. apply N.leb_gt. lia.
Qed.


End StringProperties.

Lemma spec_domain_stem_app a b :
  spec_domain_stem (a ++ b) = spec_domain_stem a ++ spec_domain_stem b.
Proof. unfold spec_domain_stem. rewrite filter_app, fmap_app, filter_app. done. Qed.

Lemma spec_domain_stem_chars company :
  Forall (λ c, is_stem_char c = true) (spec_domain_stem company).
Proof.
  unfold spec_domain_stem. apply Forall_forall. intros c Hc.
  apply list_elem_of_filter in Hc as [Hne Hc].
  apply list_elem_of_fmap in Hc as (x & -> & Hx).
  apply list_elem_of_filter in Hx as [Hx _].
  revert Hne Hx.
  unfold is_stem_char, is_ascii_letter_digit_space, ascii_lower, is_ascii_upper.
  destruct (in_range 65 90 x) eqn:Hup; unfold in_range in *.
  - intros _ _. apply andb_true_iff in Hup as [H1 H2]. apply N.leb_le in H1, H2.
    apply orb_true_iff. left. apply andb_true_iff.
    split; apply N.leb_le; lia.
  - rewrite orb_false_r. intros Hne.
    rewrite !orb_true_iff, N.eqb_eq. intros [Hx | ->]; [done | congruence].
Qed.

Lemma spec_domain_stem_fixed s :
  Forall (λ c, is_stem_char c = true) s → spec_domain_stem s = s.
Proof.
  induction 1 as [|c s Hc _ IH]; [done |].
  change (c :: s) with ([c] ++ s). rewrite spec_domain_stem_app, IH. f_equal.
  unfold spec_domain_stem.
  assert (is_ascii_letter_digit_space c = true ∧ ascii_lower c = c ∧ c ≠ 32%N)
    as (H1 & H2 & H3).
  { revert Hc.
    unfold is_stem_char, is_ascii_letter_digit_space, ascii_lower,
      is_ascii_upper, in_range.
    rewrite !orb_true_iff, !andb_true_iff, !N.leb_le. intros Hc.
    split; [tauto |]. split; [| lia].
    destruct (65 <=? c)%N eqn:E1; destruct (c <=? 90)%N eqn:E2; simpl; try done.
    apply N.leb_le in E1, E2. lia. }
  rewrite filter_cons_True by done. simpl. rewrite H2.
  rewrite filter_cons_True by done. done.
Qed.


(** ** Series and frames: properties

    Every series of the pipeline is computed from the rows of one frame, so
    it has the shape [(λ ir, (ir.1, g ir)) <$> rows df]. *)

Lemma zip_with_fmap_both {A B C D} (g : B → C → D) (f1 : A → B) (f2 : A → C)
  (l : list A) :
  zip_with g (f1 <$> l) (f2 <$> l) = (λ x, g (f1 x) (f2 x)) <$> l.
Proof. induction l as [|x l IH]; csimpl; [done | by rewrite IH]. Qed.

Lemma omap_filter_fmap {A B} (p : A → bool) (f : A → B) (l : list A) :
  omap (λ x, if p x then Some (f x) else None) l
  = f <$> filter (λ x, p x = true) l.
Proof.
  induction l as [|x l IH]; csimpl; [done |].
  rewrite IH. destruct (p x) eqn:Hp.
  - rewrite filter_cons_True by done. done.
  - rewrite filter_cons_False by congruence. done.
Qed.

Lemma omap_omap {A B C} (f : A → option B) (g : B → option C) (l : list A) :
  omap g (omap f l) = omap (λ x, f x ≫= g) l.
Proof.
  induction l as [|x l IH]; csimpl; [done |].
  destruct (f x) as [y|]; csimpl; [destruct (g y) |]; by rewrite IH.
Qed.

Lemma omap_fmap_Some {A B C} (f : A → option B) (g : B → C) (l : list A) :
  g <$> omap f l = omap (λ x, g <$> f x) l.
Proof.
  induction l as [|x l IH]; csimpl; [done |].
  destruct (f x); csimpl; by rewrite IH.
Qed.

Lemma getitem_Ok c df :
  c ∈ columns df → getitem c df = Ok ((λ ir, (ir.1, ir.2 !! c)) <$> rows df).
Proof. intros Hc. unfold getitem. rewrite decide_True; done. Qed.

Lemma getitem_Raise c df :
  c ∉ columns df → getitem c df = Raise (KeyError [LStr c]).
Proof. intros Hc. unfold getitem. rewrite decide_False; done. Qed.

Lemma apply_Ok {A} f (g h : A → option cell) (i : A → nat) (l : list A) :
  Forall (λ x, f (g x) = Ok (h x)) l →
  apply f ((λ x, (i x, g x)) <$> l) = Ok ((λ x, (i x, h x)) <$> l).
Proof.
  induction 1 as [|x l Hx _ IH]; csimpl; [done |].
  rewrite Hx. csimpl. rewrite IH. done.
Qed.

Lemma add_series_Ok {A} (g1 g2 h : A → option cell) (i j : A → nat)
  (l : list A) :
  Forall (λ x, add_cells (g1 x) (g2 x) = Ok (h x)) l →
  add_series ((λ x, (i x, g1 x)) <$> l) ((λ x, (j x, g2 x)) <$> l)
  = Ok ((λ x, (i x, h x)) <$> l).
Proof.
  induction 1 as [|x l Hx _ IH]; csimpl; [done |].
  rewrite Hx. csimpl. rewrite IH. done.
Qed.

Lemma add_str_Ok {A} (g h : A → option cell) (i : A → nat) lit (l : list A) :
  Forall (λ x, add_cells (g x) (Some (CStr lit)) = Ok (h x)) l →
  add_str ((λ x, (i x, g x)) <$> l) lit = Ok ((λ x, (i x, h x)) <$> l).
Proof.
  intros Hl. unfold add_str. rewrite <- list_fmap_compose.
  apply (add_series_Ok g (λ _, Some (CStr lit)) h i i). done.
Qed.

Lemma setitem_rows c (g : nat * gmap string cell → option cell) df :
  rows (setitem c ((λ ir, (ir.1, g ir)) <$> rows df) df)
  = (λ ir, (ir.1, set_cell c (g ir) ir.2)) <$> rows df.
Proof.
  csimpl. rewrite <- (list_fmap_id (rows df)) at 1.
  rewrite zip_with_fmap_both. done.
Qed.

Lemma setitem_columns c s df : c ∈ columns (setitem c s df).
Proof.
  simpl. unfold with_column. case_decide; [done |].
  apply elem_of_app. right. apply list_elem_of_singleton. done.
Qed.

Lemma setitem_columns_mono c c' s df :
  c' ∈ columns df → c' ∈ columns (setitem c s df).
Proof.
  simpl. unfold with_column. intros Hc. case_decide; [done |].
  apply elem_of_app. by left.
Qed.

Lemma getitem_mask_cons iv mask df :
  getitem_mask (iv :: mask) df
  = {| columns := columns df;
       rows := (filter (λ p, p.2.2 = Some (CBool true))
                  (zip (rows df) (iv :: mask))).*1 |}.
Proof. done. Qed.

Lemma zip_mask_rows (m : nat * gmap string cell → option cell)
  (l : list (nat * gmap string cell)) :
  (filter (λ p, p.2.2 = Some (CBool true))
     (zip l ((λ ir, (ir.1, m ir)) <$> l))).*1
  = filter (λ ir, m ir = Some (CBool true)) l.
Proof.
  induction l as [|ir l IH]; csimpl; [done |].
  rewrite filter_cons. csimpl. rewrite (filter_cons _ ir).
  destruct (decide (m ir = Some (CBool true))); csimpl; by rewrite IH.
Qed.

Lemma getitem_mask_rows (m : nat * gmap string cell → option cell) df :
  rows df ≠ [] →
  getitem_mask ((λ ir, (ir.1, m ir)) <$> rows df) df
  = {| columns := columns df;
       rows := filter (λ ir, m ir = Some (CBool true)) (rows df) |}.
Proof.
  intros Hne. rewrite <- (zip_mask_rows m (rows df)).
  destruct df as [cols [|ir l]]; [done |]. done.
Qed.

Lemma missing_nil (cols have : list string) :
  filter (λ c, c ∉ have) cols = [] ↔ cols ⊆ have.
Proof.
  induction cols as [|c cols IH].
  - split; [intros _ x Hx; by apply elem_of_nil in Hx | done].
  - destruct (decide (c ∈ have)) as [Hc|Hc].
    + rewrite filter_cons_False by (intros Hn; by apply Hn). rewrite IH. split.
      * intros Hsub x Hx. apply elem_of_cons in Hx as [-> | Hx]; [done | by apply Hsub].
      * intros Hsub x Hx. apply Hsub. by right.
    + rewrite filter_cons_True by done. split; [done |].
      intros Hsub. destruct Hc. apply Hsub. by left.
Qed.

Lemma getitem_list_Ok cols df :
  cols ⊆ columns df →
  getitem_list cols df
  = Ok {| columns := cols;
          rows := (λ ir, (ir.1, restrict cols ir.2)) <$> rows df |}.
Proof.
  intros Hsub. unfold getitem_list.
  apply missing_nil in Hsub. rewrite Hsub. done.
Qed.

Lemma getitem_list_Raise cols df :
  ¬ cols ⊆ columns df →
  getitem_list cols df
  = Raise (KeyError (LStr <$> filter (λ c, c ∉ columns df) cols)).
Proof.
  intros Hsub. unfold getitem_list. rewrite <- missing_nil in Hsub.
  destruct (filter (λ c, c ∉ columns df) cols); done.
Qed.

Lemma drop_columns_Ok cols df :
  cols ⊆ columns df →
  drop_columns cols df
  = Ok {| columns := filter (λ c, c ∉ cols) (columns df);
          rows := (λ ir, (ir.1, foldr delete ir.2 cols)) <$> rows df |}.
Proof.
  intros Hsub. unfold drop_columns.
  apply missing_nil in Hsub. rewrite Hsub. done.
Qed.

Lemma dropna_subset_Ok cols df :
  cols ⊆ columns df →
  dropna_subset cols df
  = Ok {| columns := columns df;
          rows := filter (λ ir, Forall (λ c, is_Some (ir.2 !! c)) cols)
                    (rows df) |}.
Proof.
  intros Hsub. unfold dropna_subset.
  apply missing_nil in Hsub. rewrite Hsub. done.
Qed.

Lemma singleton_subseteq (c : string) (l : list string) : c ∈ l → [c] ⊆ l.
Proof. intros Hc x Hx. apply list_elem_of_singleton in Hx as ->. done. Qed.

(** Adding a column and dropping it again leaves the other columns. *)
Lemma columns_add_drop (c : string) (cols : list string) :
  filter (λ x, x ∉ [c]) (with_column c cols) = filter (λ x, x ≠ c) cols.
Proof.
  unfold with_column.
  assert (∀ l : list string,
            filter (λ x, x ∉ [c]) l = filter (λ x, x ≠ c) l) as Hf.
  { intros l. apply list_filter_iff. intros x. rewrite list_elem_of_singleton. done. }
  rewrite Hf. case_decide; [done |].
  rewrite filter_app, filter_cons_False, filter_nil, app_nil_r; [done |].
  intros Hn. by apply Hn.
Qed.

Lemma omap_cons_Some {A B} (f : A → option B) x y (l : list A) :
  f x = Some y → omap f (x :: l) = y :: omap f l.
Proof. intros Hx. csimpl. rewrite Hx. done. Qed.

Lemma omap_cons_None {A B} (f : A → option B) x (l : list A) :
  f x = None → omap f (x :: l) = omap f l.
Proof. intros Hx. csimpl. rewrite Hx. done. Qed.

(** One step of the exception monad. *)
Ltac ret := cbn [mbind result_bind mret result_ret].

Section StageProperties.

Context `{UnicodeTables}.

Lemma str_lower_fmap {A} (g : A → option cell) (i : A → nat) (l : list A) :
  str_lower ((λ x, (i x, g x)) <$> l)
  = (λ x, (i x, str_method lower (g x))) <$> l.
Proof. unfold str_lower. rewrite <- list_fmap_compose. done. Qed.

(** *** STEP 2 *)

Lemma filter_senior_execs_Ok df :
  "Title" ∈ columns df →
  rows df ≠ [] →
  Forall (λ ir, ∃ t, ir.2 !! "Title" = Some (CStr t)) (rows df) →
  filter_senior_execs df
  = Ok {| columns := filter (λ c, c ≠ "is_senior") (columns df);
          rows := omap filter_row (rows df) |}.
Proof.
  intros Hcol Hne Htitles. unfold filter_senior_execs.
  rewrite getitem_Ok by done. ret.
  rewrite (str_lower_fmap (λ ir, ir.2 !! "Title") fst).
  rewrite (apply_Ok _ _ (λ ir, Some (CBool (is_senior ir.2)))).
  2:{ eapply Forall_impl; [exact Htitles |]. intros ir [t Ht]. simpl.
      unfold is_senior. rewrite Ht. done. }
  ret.
  set (df2 := setitem "is_senior" _ df).
  assert (rows df2 ≠ []) as Hne2.
  { subst df2.
    rewrite (setitem_rows "is_senior" (λ ir, Some (CBool (is_senior ir.2)))).
    by intros ?%fmap_nil_inv. }
  rewrite (getitem_Ok "is_senior" df2) by apply setitem_columns. ret.
  rewrite (getitem_mask_rows (λ ir, ir.2 !! "is_senior") df2 Hne2).
  rewrite drop_columns_Ok by (apply singleton_subseteq, setitem_columns).
  cbn [columns rows]. f_equal. f_equal.
  - apply columns_add_drop.
  - subst df2. rewrite (setitem_rows "is_senior" (λ ir, Some (CBool (is_senior ir.2)))).
    clear.
    induction (rows df) as [|ir l IH]; [done |].
    rewrite fmap_cons.
    destruct (is_senior ir.2) eqn:Hs.
    + rewrite filter_cons_True by apply lookup_insert_eq.
      rewrite fmap_cons, IH.
      rewrite (omap_cons_Some filter_row ir (ir.1, delete "is_senior" ir.2))
        by (unfold filter_row; rewrite Hs; done).
      cbn [fst snd set_cell foldr]. rewrite delete_insert_eq. done.
    + rewrite filter_cons_False.
      * rewrite IH, omap_cons_None; [done |]. unfold filter_row. rewrite Hs. done.
      * cbn [fst snd set_cell]. rewrite lookup_insert_eq. congruence.
Qed.

(** On a frame without rows the mask has no element: the frame selected with
    it has no column, and there is no [is_senior] to drop. *)
Lemma filter_senior_execs_empty df :
  "Title" ∈ columns df →
  rows df = [] →
  filter_senior_execs df = Raise (KeyError [LStr "is_senior"]).
Proof.
  intros Hcol Hnil. unfold filter_senior_execs.
  rewrite getitem_Ok by done. ret. rewrite Hnil. cbn [fmap list_fmap].
  cbn [str_lower fmap list_fmap apply]. ret.
  set (df2 := setitem "is_senior" _ df).
  rewrite (getitem_Ok "is_senior" df2) by apply setitem_columns. ret.
  subst df2. cbn [setitem rows]. rewrite Hnil. done.
Qed.

(** *** STEP 3 *)

Lemma name_split_fmap (rs : list (nat * gmap string cell)) :
  str_split_expand 32 (str_strip ((λ ir, (ir.1, ir.2 !! "Name")) <$> rs))
  = (λ ir, (ir.1, name_parts ir.2)) <$> rs.
Proof.
  unfold str_split_expand, str_strip. rewrite <- !list_fmap_compose.
  apply list_fmap_ext. intros _ ir _. unfold name_parts. simpl.
  destruct (ir.2 !! "Name") as [[x|b]|]; done.
Qed.

Lemma split_row_cases ir :
  (∃ x k, ir.2 !! "Name" = Some (CStr x) ∧ find 32 (strip x) = Some k
     ∧ name_parts ir.2 = Some [take k (strip x); drop (S k) (strip x)]
     ∧ split_row ir
       = Some (ir.1, <["LastName" := CStr (drop (S k) (strip x))]>
                       (<["FirstName" := CStr (take k (strip x))]> ir.2)))
  ∨ (split_row ir = None
     ∧ (name_parts ir.2 = None ∨ ∃ s, name_parts ir.2 = Some [s])).
Proof.
  unfold split_row, name_parts, split_max1.
  destruct (ir.2 !! "Name") as [[x|b]|]; [| by right; split; [| left] ..].
  destruct (find 32 (strip x)) as [k|] eqn:Hk.
  - left. exists x, k. done.
  - right. split; [done |]. right. eauto.
Qed.

Lemma width_cons ip ps : width (ip :: ps)
  = match ip.2 with Some p => length p | None => 1 end `max` width ps.
Proof. unfold width. simpl. destruct ip.2; done. Qed.

Lemma width_name_split (rs : list (nat * gmap string cell)) :
  width ((λ ir, (ir.1, name_parts ir.2)) <$> rs)
  = match rs, omap split_row rs with
    | [], _ => 0
    | _ :: _, [] => 1
    | _ :: _, _ :: _ => 2
    end.
Proof.
  induction rs as [|ir rs IH]; [done |].
  rewrite fmap_cons, width_cons, IH. cbn [snd].
  destruct (split_row_cases ir) as [(x & k & _ & _ & -> & Hs) | [Hs Hp]].
  - rewrite (omap_cons_Some _ _ _ _ Hs). cbn [length].
    destruct rs as [|p l]; [lia |]. destruct (omap split_row (p :: l)); lia.
  - rewrite (omap_cons_None _ _ _ Hs).
    assert (match name_parts ir.2 with Some p => length p | None => 1 end = 1)
      as -> by (destruct Hp as [-> | [s ->]]; done).
    destruct rs as [|p l]; [done |]. destruct (omap split_row (p :: l)); lia.
Qed.

Lemma setitem_twice_rows c1 c2 (g1 g2 : nat * gmap string cell → nat * option cell)
  cols (l : list (nat * gmap string cell)) :
  rows (setitem c2 (g2 <$> l)
          (setitem c1 (g1 <$> l) {| columns := cols; rows := l |}))
  = (λ ir, (ir.1, set_cell c2 (snd (g2 ir)) (set_cell c1 (snd (g1 ir)) ir.2)))
      <$> l.
Proof.
  cbn [rows setitem]. induction l as [|ir l IH]; csimpl; [done |].
  f_equal. apply IH.
Qed.

Lemma split_names_rows (rs : list (nat * gmap string cell)) :
  filter (λ ir, Forall (λ c, is_Some (ir.2 !! c)) ["LastName"])
    ((λ ir, (ir.1,
             set_cell "LastName" (ps ← name_parts ir.2; CStr <$> ps !! 1)
               (set_cell "FirstName" (ps ← name_parts ir.2; CStr <$> ps !! 0)
                  ir.2))) <$> rs)
  = omap split_row rs.
Proof.
  induction rs as [|ir rs IH]; [done |].
  rewrite fmap_cons.
  destruct (split_row_cases ir) as [(x & k & _ & _ & Hp & Hs) | [Hs Hp]].
  - rewrite (omap_cons_Some _ _ _ _ Hs), Hp.
    cbn [mbind option_bind lookup list_lookup fmap option_fmap option_map
         set_cell].
    rewrite filter_cons_True, IH; [done |].
    repeat constructor. cbn [snd]. rewrite lookup_insert_eq. done.
  - rewrite (omap_cons_None _ _ _ Hs).
    rewrite filter_cons_False; [done |].
    intros Hall. apply Forall_cons in Hall as [[v Hv] _]. revert Hv. cbn [snd].
    destruct Hp as [-> | [s ->]]; cbn; rewrite lookup_delete_eq; done.
Qed.

Lemma split_names_spec df :
  "Name" ∈ columns df →
  split_names df
  = match rows df, omap split_row (rows df) with
    | [], _ => Raise (KeyError [LInt 0])
    | _ :: _, [] => Raise (KeyError [LInt 1])
    | _ :: _, _ :: _ =>
        Ok {| columns := with_column "LastName"
                           (with_column "FirstName" (columns df));
              rows := omap split_row (rows df) |}
    end.
Proof.
  intros Hcol. unfold split_names.
  rewrite getitem_Ok by done. ret.
  rewrite name_split_fmap. unfold getitem_int.
  rewrite width_name_split.
  destruct df as [cols rws]. cbn [rows columns] in *.
  destruct rws as [|ir rs]; [done |].
  lazy beta iota. set (l := ir :: rs).
  destruct (omap split_row l) as [|y ys] eqn:Hsplit; lazy beta iota.
  { rewrite (decide_True (P := 0 < 1)) by lia. ret.
    rewrite (decide_False (P := 1 < 1)) by lia. done. }
  rewrite !decide_True by lia. ret.
  rewrite dropna_subset_Ok.
  2:{ apply singleton_subseteq, setitem_columns. }
  f_equal. f_equal. rewrite <- Hsplit, <- split_names_rows.
  f_equal. rewrite <- !list_fmap_compose.
  rewrite setitem_twice_rows. done.
Qed.

Lemma Forall_omap_intro {A B} (P : B → Prop) (f : A → option B) (l : list A) :
  (∀ x y, f x = Some y → P y) → Forall P (omap f l).
Proof.
  intros Hf. apply Forall_forall. intros y Hy.
  apply list_elem_of_omap in Hy as (x & _ & Hx). eauto.
Qed.

Lemma fmap_ext_Forall {A B} (P : A → Prop) (f g : A → B) (l : list A) :
  Forall P l → (∀ x, P x → f x = g x) → f <$> l = g <$> l.
Proof.
  induction 1 as [|x l Hx _ IH]; intros Hfg; csimpl; [done |].
  rewrite Hfg, IH; done.
Qed.

(** *** STEP 4 *)

Lemma add_domains_Ok df :
  "Company" ∈ columns df →
  Forall (λ ir, has_text "Company" ir.2) (rows df) →
  add_domains df
  = Ok {| columns := with_column "Domain" (columns df);
          rows := domain_row <$> rows df |}.
Proof.
  intros Hcol Htext. unfold add_domains.
  rewrite getitem_Ok by done. ret.
  rewrite (apply_Ok _ _
             (λ ir, match ir.2 !! "Company" with
                    | Some (CStr c) => Some (CStr (infer_domain c))
                    | _ => None
                    end)).
  2:{ eapply Forall_impl; [exact Htext |]. intros ir [c Hc]. simpl.
      rewrite Hc. done. }
  ret. f_equal. unfold setitem. f_equal.
  rewrite <- (list_fmap_id (rows df)) at 1. rewrite zip_with_fmap_both.
  apply (fmap_ext_Forall _ _ _ _ Htext). intros ir [c Hc].
  unfold domain_row. simpl. rewrite Hc. destruct ir; done.
Qed.

(** *** STEP 5 *)

Lemma generate_emails_Ok df :
  "FirstName" ∈ columns df → "LastName" ∈ columns df → "Domain" ∈ columns df →
  Forall (λ ir, has_text "FirstName" ir.2 ∧ has_text "LastName" ir.2
                ∧ has_text "Domain" ir.2) (rows df) →
  generate_emails df
  = Ok {| columns := with_column "Email_2" (with_column "Email_1" (columns df));
          rows := email_row <$> rows df |}.
Proof.
  intros Hf Hl Hd Htext. unfold generate_emails.
  pose (txt := λ (c : string) (ir : nat * gmap string cell),
          match ir.2 !! c with Some (CStr s) => s | _ => [] end).
  assert (Forall (λ ir, ir.2 !! "FirstName" = Some (CStr (txt "FirstName" ir))
                   ∧ ir.2 !! "LastName" = Some (CStr (txt "LastName" ir))
                   ∧ ir.2 !! "Domain" = Some (CStr (txt "Domain" ir))) (rows df))
    as Htxt.
  { eapply Forall_impl; [exact Htext |].
    intros ir ([f Hf'] & [l Hl'] & [d Hd']). unfold txt.
    rewrite Hf', Hl', Hd'. done. }
  pose (e1 := λ ir : nat * gmap string cell,
          Some (CStr ((((lower (txt "FirstName" ir) ++ u ".")
                        ++ lower (txt "LastName" ir)) ++ u "@")
                      ++ txt "Domain" ir))).
  pose (e2 := λ ir : nat * gmap string cell,
          Some (CStr ((lower (txt "FirstName" ir) ++ u "@") ++ txt "Domain" ir))).
  rewrite (getitem_Ok "FirstName") by done. ret.
  rewrite (str_lower_fmap (λ ir, ir.2 !! "FirstName") fst).
  rewrite (add_str_Ok _ (λ ir, Some (CStr (lower (txt "FirstName" ir) ++ u "."))) fst).
  2:{ eapply Forall_impl; [exact Htxt |]. intros ir (-> & _ & _). done. }
  ret. rewrite (getitem_Ok "LastName") by done. ret.
  rewrite (str_lower_fmap (λ ir, ir.2 !! "LastName") fst).
  rewrite (add_series_Ok _ _
             (λ ir, Some (CStr ((lower (txt "FirstName" ir) ++ u ".")
                                ++ lower (txt "LastName" ir)))) fst fst).
  2:{ eapply Forall_impl; [exact Htxt |]. intros ir (_ & -> & _). done. }
  ret.
  rewrite (add_str_Ok _
             (λ ir, Some (CStr (((lower (txt "FirstName" ir) ++ u ".")
                                 ++ lower (txt "LastName" ir)) ++ u "@"))) fst).
  2:{ apply Forall_forall. done. }
  ret. rewrite (getitem_Ok "Domain") by done. ret.
  rewrite (add_series_Ok _ _ e1 fst fst).
  2:{ eapply Forall_impl; [exact Htxt |]. intros ir (_ & _ & ->). done. }
  ret.
  set (df2 := setitem "Email_1" _ df).
  assert (rows df2 = (λ ir, (ir.1, set_cell "Email_1" (e1 ir) ir.2)) <$> rows df)
    as Hrows2 by apply (setitem_rows "Email_1" e1).
  assert (Forall (λ ir, ir.2 !! "FirstName" = Some (CStr (txt "FirstName" ir))
                   ∧ ir.2 !! "Domain" = Some (CStr (txt "Domain" ir))) (rows df2))
    as Htxt2.
  { rewrite Hrows2. apply Forall_fmap. eapply Forall_impl; [exact Htxt |].
    intros ir (Hf' & _ & Hd'). unfold txt. simpl.
    rewrite !lookup_insert_ne by done. rewrite Hf', Hd'. done. }
  rewrite (getitem_Ok "FirstName" df2) by (by apply setitem_columns_mono). ret.
  rewrite (str_lower_fmap (λ ir, ir.2 !! "FirstName") fst).
  rewrite (add_str_Ok _ (λ ir, Some (CStr (lower (txt "FirstName" ir) ++ u "@"))) fst).
  2:{ eapply Forall_impl; [exact Htxt2 |]. intros ir (-> & _). done. }
  ret. rewrite (getitem_Ok "Domain" df2) by (by apply setitem_columns_mono). ret.
  rewrite (add_series_Ok _ _ e2 fst fst).
  2:{ eapply Forall_impl; [exact Htxt2 |]. intros ir (_ & ->). done. }
  ret. f_equal.
  pose proof (setitem_rows "Email_2" e2 df2) as Hrows3.
  destruct (setitem "Email_2" _ df2) as [cols3 rows3] eqn:Hdf3.
  cbn [rows] in Hrows3. subst rows3.
  assert (cols3 = with_column "Email_2" (with_column "Email_1" (columns df)))
    as -> by (by injection Hdf3).
  f_equal. rewrite Hrows2, <- list_fmap_compose.
  apply (fmap_ext_Forall _ _ _ _ Htxt). intros [i r] (Hf' & Hl' & Hd').
  unfold email_row, e1, e2, txt in *. cbn [fst snd compose set_cell] in *.
  rewrite !lookup_insert_ne by done.
  rewrite Hf', Hl', Hd'. rewrite <- !app_assoc. done.
Qed.

(** *** STEP 1 *)

Lemma load_data_rows (l : list (gmap string pystr)) (j : nat → nat) :
  filter (λ ir : nat * gmap string cell,
            Forall (λ c, is_Some (ir.2 !! c)) ["Name"; "Title"; "Company"])
    ((λ ir, (ir.1, restrict ["Name"; "Title"; "Company"] ir.2))
       <$> imap (λ i raw, (j i, omap parse_cell raw)) l)
  = omap load_row (imap (λ i raw, (j i, raw)) l).
Proof.
  revert j. induction l as [|raw l IH]; intros j; [done |].
  rewrite !imap_cons, fmap_cons.
  specialize (IH (λ i, j (S i))).
  change ((λ i raw, (j i, omap parse_cell raw)) ∘ S)
    with (λ i (raw : gmap string pystr), (j (S i), omap parse_cell raw)).
  change ((λ i (raw : gmap string pystr), (j i, raw)) ∘ S)
    with (λ i (raw : gmap string pystr), (j (S i), raw)).
  destruct (decide (Forall (λ c, is_Some
                      (restrict ["Name"; "Title"; "Company"]
                         (omap parse_cell raw) !! c))
                     ["Name"; "Title"; "Company"])) as [Hall|Hall].
  - rewrite filter_cons_True by exact Hall.
    rewrite (omap_cons_Some load_row _
               (j 0, restrict ["Name"; "Title"; "Company"] (omap parse_cell raw))).
    + f_equal. apply IH.
    + unfold load_row. cbn [fst snd]. rewrite decide_True by exact Hall. done.
  - rewrite filter_cons_False by exact Hall.
    rewrite omap_cons_None; [apply IH |].
    unfold load_row. cbn [fst snd]. rewrite decide_False by exact Hall. done.
Qed.

Lemma load_data_spec w path :
  load_data w path
  = match excel_files w !! path with
    | None => Raise (unreadable w path)
    | Some sh =>
        match filter (λ c, c ∉ sheet_columns sh) ["Name"; "Title"; "Company"] with
        | [] => Ok {| columns := ["Name"; "Title"; "Company"];
                      rows := omap load_row (indexed sh) |}
        | missing => Raise (KeyError (LStr <$> missing))
        end
    end.
Proof.
  unfold load_data, read_excel, unreadable.
  destruct (excel_files w !! path) as [sh|]; [| by destruct (decide _)]. ret.
  unfold getitem_list. cbn [columns rows frame_of_sheet].
  destruct (filter (λ c, c ∉ sheet_columns sh) _); [| done]. ret.
  unfold dropna. cbn [columns rows]. f_equal. f_equal.
  apply (load_data_rows (sheet_rows sh) id).
Qed.

(** *** The rows, stage by stage *)

Lemma load_row_Some x ir :
  load_row x = Some ir →
  ir.1 = x.1
  ∧ ∀ c, c ∈ ["Name"; "Title"; "Company"] →
         ∃ s, x.2 !! c = Some s ∧ s ≠ [] ∧ ir.2 !! c = Some (CStr s).
Proof.
  unfold load_row. case_decide as Hall; [| done]. intros [= <-]. split; [done |].
  intros c Hc. rewrite Forall_forall in Hall. destruct (Hall c Hc) as [v Hv].
  cbn [snd] in *. unfold restrict in *.
  apply map_lookup_filter_Some in Hv as [Hv _].
  rewrite lookup_omap in Hv. 
  destruct (x.2 !! c) as [s|] eqn:Hs; [| done]. simpl in Hv.
  exists s. split; [done |]. destruct s as [|a s]; [done |]. split; [done |].
  apply map_lookup_filter_Some. split; [| done].
  rewrite lookup_omap, Hs. done.
Qed.

Lemma load_row_None x :
  load_row x = None ↔ ∃ c, c ∈ ["Name"; "Title"; "Company"] ∧ blank x.2 c.
Proof.
  unfold load_row, blank. case_decide as Hall.
  - split; [done |]. intros (c & Hc & Hb). rewrite Forall_forall in Hall.
    destruct (Hall c Hc) as [v Hv]. cbn [snd] in Hv. unfold restrict in Hv.
    apply map_lookup_filter_Some in Hv as [Hv _]. rewrite lookup_omap in Hv.
    destruct Hb as [Hb | Hb]; rewrite Hb in Hv; done.
  - split; [intros _ | done]. apply not_Forall_Exists in Hall; [| apply _].
    apply Exists_exists in Hall as (c & Hc & Hn). exists c. split; [done |].
    cbn [snd] in Hn. unfold restrict in Hn.
    destruct (x.2 !! c) as [[|a s]|] eqn:Hs; [by right | | by left].
    destruct Hn. exists (CStr (a :: s)).
    apply map_lookup_filter_Some. split; [| done].
    rewrite lookup_omap, Hs. done.
Qed.

Lemma filter_row_Some ir ir' :
  filter_row ir = Some ir' →
  is_senior ir.2 = true ∧ ir' = (ir.1, delete "is_senior" ir.2).
Proof. unfold filter_row. destruct (is_senior ir.2); [| done]. by intros [= <-]. Qed.

Lemma split_row_Some ir ir' :
  split_row ir = Some ir' →
  ∃ x k, ir.2 !! "Name" = Some (CStr x) ∧ find 32 (strip x) = Some k
    ∧ ir' = (ir.1, <["LastName" := CStr (drop (S k) (strip x))]>
                     (<["FirstName" := CStr (take k (strip x))]> ir.2)).
Proof.
  unfold split_row. destruct (ir.2 !! "Name") as [[x|b]|]; [| done ..].
  destruct (find 32 (strip x)) as [k|] eqn:Hk; [| done]. intros [= <-].
  exists x, k. done.
Qed.

Lemma domain_row_fst ir : (domain_row ir).1 = ir.1.
Proof. unfold domain_row. destruct (ir.2 !! "Company") as [[c|b]|]; done. Qed.

Lemma domain_row_lookup ir k :
  k ≠ "Domain" → (domain_row ir).2 !! k = ir.2 !! k.
Proof.
  intros Hk. unfold domain_row. destruct (ir.2 !! "Company") as [[c|b]|]; [| done ..].
  cbn [snd]. by rewrite lookup_insert_ne.
Qed.

Lemma email_row_fst ir : (email_row ir).1 = ir.1.
Proof.
  unfold email_row.
  destruct (ir.2 !! "FirstName") as [[f|b]|]; [| done ..].
  destruct (ir.2 !! "LastName") as [[l|b]|]; [| done ..].
  destruct (ir.2 !! "Domain") as [[d|b]|]; done.
Qed.


Lemma loaded_texts x ir c :
  load_row x = Some ir → c ∈ ["Name"; "Title"; "Company"] → has_text c ir.2.
Proof.
  intros Hx Hc. apply load_row_Some in Hx as [_ Hx].
  destruct (Hx c Hc) as (s & _ & _ & Hs). by exists s.
Qed.

Lemma filter_row_texts ir ir' c :
  filter_row ir = Some ir' → c ≠ "is_senior" → has_text c ir.2 → has_text c ir'.2.
Proof.
  intros Hf Hc [s Hs]. apply filter_row_Some in Hf as [_ ->].
  exists s. cbn [snd]. by rewrite lookup_delete_ne.
Qed.

Lemma split_row_lookup ir ir' c :
  split_row ir = Some ir' → c ≠ "FirstName" → c ≠ "LastName" →
  ir'.2 !! c = ir.2 !! c.
Proof.
  intros Hs H1 H2. apply split_row_Some in Hs as (x & k & _ & _ & ->).
  cbn [snd]. by rewrite !lookup_insert_ne.
Qed.

Lemma split_row_names ir ir' :
  split_row ir = Some ir' →
  has_text "FirstName" ir'.2 ∧ has_text "LastName" ir'.2.
Proof.
  intros Hs. apply split_row_Some in Hs as (x & k & _ & _ & ->). cbn [snd]. split.
  - eexists. rewrite lookup_insert_ne by done. apply lookup_insert_eq.
  - eexists. apply lookup_insert_eq.
Qed.

Lemma domain_row_text ir :
  has_text "Company" ir.2 → has_text "Domain" (domain_row ir).2.
Proof.
  intros [c Hc]. unfold domain_row. rewrite Hc. cbn [snd].
  eexists. apply lookup_insert_eq.
Qed.

Lemma senior_rows_texts sh ir c :
  ir ∈ senior_rows sh → c ∈ ["Name"; "Title"; "Company"] → has_text c ir.2.
Proof.
  intros Hir Hc. apply list_elem_of_omap in Hir as (y & Hy & Hf).
  apply list_elem_of_omap in Hy as (x & _ & Hx).
  apply (filter_row_texts y); [done | | by eapply loaded_texts].
  intros ->. revert Hc. compute_done.
Qed.

Lemma named_rows_texts sh ir :
  ir ∈ named_rows sh →
  has_text "Company" ir.2 ∧ has_text "FirstName" ir.2 ∧ has_text "LastName" ir.2.
Proof.
  intros Hir. apply list_elem_of_omap in Hir as (y & Hy & Hs).
  split; [| by eapply split_row_names].
  destruct (senior_rows_texts sh y "Company" Hy) as [c Hc]; [compute_done |].
  exists c. by rewrite (split_row_lookup y ir).
Qed.

Lemma final_rows_named sh :
  final_rows sh = (email_row ∘ domain_row) <$> named_rows sh.
Proof.
  unfold final_rows, named_rows, senior_rows, loaded_rows, pipeline_row.
  rewrite !omap_omap, omap_fmap_Some. apply list_omap_ext, Forall2_same_length_lookup.
  split; [done |]. intros i x y Hx Hy. simplify_eq.
  destruct (load_row x) as [a|]; [| done]. simpl.
  destruct (filter_row a) as [b|]; [| done]. simpl.
  destruct (split_row b); done.
Qed.

Lemma stages_spec cfg w :
  stages cfg w
  = match excel_files w !! INPUT_FILE cfg with
    | None => Raise (unreadable w (INPUT_FILE cfg))
    | Some sh =>
        match filter (λ c, c ∉ sheet_columns sh) ["Name"; "Title"; "Company"] with
        | [] =>
            match loaded_rows sh, senior_rows sh, named_rows sh with
            | [], _, _ => Raise (KeyError [LStr "is_senior"])
            | _ :: _, [], _ => Raise (KeyError [LInt 0])
            | _ :: _, _ :: _, [] => Raise (KeyError [LInt 1])
            | _ :: _, _ :: _, _ :: _ =>
                Ok {| columns := all_columns; rows := final_rows sh |}
            end
        | missing => Raise (KeyError (LStr <$> missing))
        end
    end.
Proof.
  unfold stages. rewrite load_data_spec.
  destruct (excel_files w !! INPUT_FILE cfg) as [sh|]; [| done].
  destruct (filter (λ c, c ∉ sheet_columns sh) _); [| done]. ret.
  fold (loaded_rows sh).
  destruct (loaded_rows sh) as [|l0 ls] eqn:Hload.
  { rewrite filter_senior_execs_empty; [done | compute_done | done]. }
  rewrite filter_senior_execs_Ok; cbn [columns rows].
  2:{ compute_done. }
  2:{ done. }
  2:{ rewrite <- Hload. apply Forall_omap_intro. intros x ir Hx.
      apply (loaded_texts x ir "Title" Hx). compute_done. }
  ret. rewrite <- Hload. fold (senior_rows sh).
  rewrite split_names_spec; cbn [columns rows].
  2:{ compute_done. }
  fold (named_rows sh).
  destruct (senior_rows sh) as [|s0 ss] eqn:Hsen; [done |].
  destruct (named_rows sh) as [|n0 ns] eqn:Hnam; [done |]. ret.
  rewrite add_domains_Ok; cbn [columns rows].
  2:{ compute_done. }
  2:{ rewrite <- Hnam. apply Forall_forall. intros ir Hir.
      by apply named_rows_texts in Hir as [? _]. }
  ret. rewrite generate_emails_Ok; cbn [columns rows].
  2,3,4: compute_done.
  2:{ rewrite <- Hnam. apply Forall_fmap, Forall_forall. intros ir Hir.
      apply named_rows_texts in Hir as (Hc & [f Hf] & [l Hl]). simpl.
      split; [| split].
      - exists f. by rewrite domain_row_lookup.
      - exists l. by rewrite domain_row_lookup.
      - by apply domain_row_text. }
  f_equal. f_equal.
  rewrite final_rows_named, Hnam, list_fmap_compose. done.
Qed.

End StageProperties.

Section PipelineProperties.

Context `{UnicodeTables} {console : Console}.

Lemma named_rows_nil_final sh : named_rows sh = [] ↔ final_rows sh = [].
Proof.
  rewrite final_rows_named. split; [intros ->; done |].
  intros Hn. by apply fmap_nil_inv in Hn.
Qed.

Lemma senior_rows_nil_named sh : senior_rows sh = [] → named_rows sh = [].
Proof. unfold named_rows. intros ->. done. Qed.

Lemma loaded_rows_nil_senior sh : loaded_rows sh = [] → senior_rows sh = [].
Proof. unfold senior_rows. intros ->. done. Qed.

Lemma main_outcome cfg w : main cfg w = outcome cfg w.
Proof.
  unfold main, outcome. rewrite stages_spec.
  destruct (excel_files w !! INPUT_FILE cfg) as [sh|]; [| done].
  destruct (filter (λ c, c ∉ sheet_columns sh) _); [| done].
  destruct (loaded_rows sh); [done |].
  destruct (senior_rows sh); [done |].
  destruct (named_rows sh); [done |]. ret.
  rewrite getitem_list_Ok; [done |]. cbn [columns].
  apply missing_nil. compute_done.
Qed.


(** The two lines are printed as far as the console can encode them. *)
Lemma report_cases cfg n w :
  report cfg n w
  = if forallb encodes (text (Generated n))
    then if forallb encodes (text (SavedTo (OUTPUT_FILE cfg)))
         then (emit (SavedTo (OUTPUT_FILE cfg)) (emit (Generated n) w), Ok ())
         else (emit (Generated n) w, Raise UnicodeEncodeError)
    else (w, Raise UnicodeEncodeError).
Proof.
  unfold report, print.
  destruct (forallb encodes (text (Generated n))); [| done].
  destruct (forallb encodes (text (SavedTo (OUTPUT_FILE cfg)))); done.
Qed.

(** A run on a workbook that has the three columns and a row that passes
    every stage exports, and then prints. *)
Lemma main_exports cfg w sh :
  excel_files w !! INPUT_FILE cfg = Some sh →
  ["Name"; "Title"; "Company"] ⊆ sheet_columns sh →
  final_rows sh ≠ [] →
  main cfg w
  = report cfg (length (rows (final_frame cfg sh))) (exported cfg sh w).
Proof.
  intros Hsh Hsub Hne. rewrite main_outcome. unfold outcome. rewrite Hsh.
  apply missing_nil in Hsub. rewrite Hsub.
  rewrite <- named_rows_nil_final in Hne.
  destruct (loaded_rows sh) eqn:Hl.
  { destruct Hne. by apply senior_rows_nil_named, loaded_rows_nil_senior. }
  destruct (senior_rows sh) eqn:Hs.
  { destruct Hne. by apply senior_rows_nil_named. }
  destruct (named_rows sh); done.
Qed.

(** A run that does not get to the export leaves the world as it found
    it. *)
Lemma main_stops cfg w :
  (∃ e, main cfg w = (w, Raise e) ∧ e ≠ UnicodeEncodeError)
  ∨ ∃ sh, excel_files w !! INPUT_FILE cfg = Some sh
      ∧ ["Name"; "Title"; "Company"] ⊆ sheet_columns sh
      ∧ final_rows sh ≠ [].
Proof.
  rewrite main_outcome. unfold outcome.
  destruct (excel_files w !! INPUT_FILE cfg) as [sh|].
  2:{ left. eexists. split; [done |]. unfold unreadable. by destruct (decide _). }
  destruct (filter (λ c, c ∉ sheet_columns sh) _) as [|c0 m] eqn:Hm;
    [| left; eauto].
  apply missing_nil in Hm.
  destruct (loaded_rows sh); [left; eauto |].
  destruct (senior_rows sh); [left; eauto |].
  destruct (named_rows sh) eqn:Hn; [left; eauto |].
  right. exists sh. split; [done |]. split; [done |].
  rewrite <- named_rows_nil_final, Hn. done.
Qed.



(** A run succeeds exactly when the workbook is there, has the three
    columns, at least one of its rows passes every stage, and the console
    can encode the two lines. *)
Lemma main_Ok_iff cfg w :
  (main cfg w).2 = Ok ()
  ↔ ∃ sh, excel_files w !! INPUT_FILE cfg = Some sh
      ∧ ["Name"; "Title"; "Company"] ⊆ sheet_columns sh
      ∧ final_rows sh ≠ []
      ∧ printable cfg sh.
Proof.
  split.
  - intros Hok.
    destruct (main_stops cfg w) as [(e & He & _) | (sh & Hsh & Hsub & Hne)].
    { by rewrite He in Hok. }
    exists sh. repeat (split; [done |]).
    rewrite (main_exports cfg w sh Hsh Hsub Hne), report_cases in Hok.
    unfold printable.
    destruct (forallb encodes (text (Generated _))); [| done].
    destruct (forallb encodes (text (SavedTo _))); done.
  - intros (sh & Hsh & Hsub & Hne & Hp1 & Hp2).
    rewrite (main_exports cfg w sh Hsh Hsub Hne), report_cases, Hp1, Hp2. done.
Qed.

Lemma main_Ok_world cfg w sh :
  excel_files w !! INPUT_FILE cfg = Some sh →
  (main cfg w).2 = Ok () →
  (main cfg w).1 = written cfg sh w.
Proof.
  intros Hsh Hok.
  destruct (proj1 (main_Ok_iff cfg w) Hok) as (sh' & Hsh' & Hsub & Hne & Hp1 & Hp2).
  simplify_eq.
  rewrite (main_exports cfg w sh Hsh Hsub Hne), report_cases, Hp1, Hp2. done.
Qed.

(** A run that ends with an exception either has changed nothing, or has
    exported and failed to print: the exception is then the one of the
    console, and the world is the one after the export, with the first line
    if that could be printed. *)
Lemma main_Raise_world cfg w e :
  (main cfg w).2 = Raise e →
  (main cfg w).1 = w
  ∨ e = UnicodeEncodeError
    ∧ ∃ sh, excel_files w !! INPUT_FILE cfg = Some sh
        ∧ ((main cfg w).1 = exported cfg sh w
           ∨ (main cfg w).1
             = emit (Generated (length (rows (final_frame cfg sh))))
                 (exported cfg sh w)).
Proof.
  intros He.
  destruct (main_stops cfg w) as [(e' & He' & _) | (sh & Hsh & Hsub & Hne)].
  { left. by rewrite He'. }
  right. rewrite (main_exports cfg w sh Hsh Hsub Hne), report_cases in He |- *.
  destruct (forallb encodes (text (Generated _))).
  - destruct (forallb encodes (text (SavedTo _))); [done |].
    injection He as <-. split; [done |]. exists sh. split; [done |]. by right.
  - injection He as <-. split; [done |]. exists sh. split; [done |]. by left.
Qed.

(** The file is written as soon as the stages have succeeded, whatever the
    console does with the two lines. *)
Lemma main_csv cfg w sh :
  excel_files w !! INPUT_FILE cfg = Some sh →
  ["Name"; "Title"; "Company"] ⊆ sheet_columns sh →
  final_rows sh ≠ [] →
  csv_files (main cfg w).1 !! OUTPUT_FILE cfg
  = Some (csv_of (final_frame cfg sh)).
Proof.
  intros Hsh Hsub Hne.
  rewrite (main_exports cfg w sh Hsh Hsub Hne), report_cases.
  destruct (forallb encodes (text (Generated _)));
    [destruct (forallb encodes (text (SavedTo _))) |];
    cbn [fst emit exported to_csv csv_files]; apply lookup_insert_eq.
Qed.

(** *** Rows and the workbook *)

Lemma elem_of_indexed sh x : x ∈ indexed sh ↔ sheet_rows sh !! x.1 = Some x.2.
Proof.
  unfold indexed. rewrite elem_of_lookup_imap. split.
  - intros (i & raw & -> & Hi). done.
  - intros Hx. exists x.1, x.2. split; [by destruct x | done].
Qed.


Lemma loaded_rows_from_sheet sh : Forall (from_sheet sh) (loaded_rows sh).
Proof.
  apply Forall_forall. intros ir Hir.
  apply list_elem_of_omap in Hir as (x & Hx & Hl).
  apply elem_of_indexed in Hx. apply load_row_Some in Hl as [H1 Hc].
  exists x.2. rewrite H1. done.
Qed.



Lemma split_row_fst ir ir' : split_row ir = Some ir' → ir'.1 = ir.1.
Proof. intros Hs. by apply split_row_Some in Hs as (x & k & _ & _ & ->). Qed.








(** *** The stages on the frames of a run *)

Lemma load_data_Ok w path sh :
  excel_files w !! path = Some sh →
  ["Name"; "Title"; "Company"] ⊆ sheet_columns sh →
  load_data w path = Ok (loaded_frame sh).
Proof.
  intros Hsh Hsub. rewrite load_data_spec, Hsh.
  apply missing_nil in Hsub. rewrite Hsub. done.
Qed.

Lemma filter_loaded sh :
  loaded_rows sh ≠ [] →
  filter_senior_execs (loaded_frame sh) = Ok (senior_frame sh).
Proof.
  intros Hne. rewrite filter_senior_execs_Ok; [done | compute_done | done |].
  apply Forall_omap_intro. intros x ir Hx.
  apply (loaded_texts x ir "Title" Hx). compute_done.
Qed.

Lemma filter_loaded_empty sh :
  loaded_rows sh = [] →
  filter_senior_execs (loaded_frame sh) = Raise (KeyError [LStr "is_senior"]).
Proof. intros Hnil. apply filter_senior_execs_empty; [compute_done | done]. Qed.

Lemma split_senior sh :
  split_names (senior_frame sh)
  = match senior_rows sh, named_rows sh with
    | [], _ => Raise (KeyError [LInt 0])
    | _ :: _, [] => Raise (KeyError [LInt 1])
    | _ :: _, _ :: _ => Ok (named_frame sh)
    end.
Proof. rewrite split_names_spec by compute_done. done. Qed.

Lemma domains_named sh : add_domains (named_frame sh) = Ok (domain_frame sh).
Proof.
  rewrite add_domains_Ok; [done | compute_done |].
  apply Forall_forall. intros ir Hir. by apply named_rows_texts in Hir as [? _].
Qed.

Lemma emails_domain sh : generate_emails (domain_frame sh) = Ok (email_frame sh).
Proof.
  rewrite generate_emails_Ok; [| compute_done .. |].
  - unfold email_frame. rewrite final_rows_named, list_fmap_compose. done.
  - apply Forall_fmap, Forall_forall. intros ir Hir.
    apply named_rows_texts in Hir as (Hc & [f Hf] & [l Hl]). simpl.
    split; [| split].
    + exists f. by rewrite domain_row_lookup.
    + exists l. by rewrite domain_row_lookup.
    + by apply domain_row_text.
Qed.

(** *** What the specification calls a surviving row *)

Lemma is_senior_spec r t :
  r !! "Title" = Some (CStr t) →
  is_senior r = true ↔ ∃ kw, kw ∈ senior_keywords ∧ is_substring kw (lower t).
Proof.
  intros Ht. unfold is_senior, any. rewrite Ht, existsb_exists.
  split; intros (kw & Hin & Hkw); exists kw.
  - apply list_elem_of_In in Hin. by apply contains_spec in Hkw.
  - apply list_elem_of_In in Hin. by apply contains_spec in Hkw.
Qed.

Lemma pipeline_row_survives x :
  is_Some (pipeline_row x) ↔ survives x.2.
Proof.
  unfold pipeline_row, survives. split.
  - intros [r Hr].
    destruct (load_row x) as [a|] eqn:Ha; [| done]. simpl in Hr.
    destruct (filter_row a) as [b|] eqn:Hb; [| done]. simpl in Hr.
    destruct (split_row b) as [c|] eqn:Hc; [| done].
    apply load_row_Some in Ha as [_ Ha].
    destruct (Ha "Name") as (name & Hn1 & Hn2 & Hn3); [compute_done |].
    destruct (Ha "Title") as (title & Ht1 & Ht2 & Ht3); [compute_done |].
    destruct (Ha "Company") as (company & Hc1 & Hc2 & Hc3); [compute_done |].
    exists name, title, company. repeat (split; [done |]).
    apply filter_row_Some in Hb as [Hsen ->].
    split; [by apply (is_senior_spec a.2) |].
    apply split_row_Some in Hc as (n & k & Hn & Hk & _). cbn [snd] in Hn.
    rewrite lookup_delete_ne, Hn3 in Hn by done. injection Hn as <-.
    apply find_Some in Hk as [Hk _]. rewrite Hk.
    apply elem_of_app. right. left.
  - intros (name & title & company & Hn & Hn' & Ht & Ht' & Hc & Hc' & Hkw & Hsp).
    destruct (load_row x) as [a|] eqn:Ha.
    2:{ apply load_row_None in Ha as (c & Hin & Hb). exfalso.
        repeat (apply elem_of_cons in Hin as [-> | Hin];
                [destruct Hb as [Hb | Hb]; congruence |]).
        by apply elem_of_nil in Hin. }
    apply load_row_Some in Ha as [_ Ha].
    destruct (Ha "Name") as (name' & Hn1 & _ & Hn3); [compute_done |].
    destruct (Ha "Title") as (title' & Ht1 & _ & Ht3); [compute_done |].
    simplify_eq. simpl.
    unfold filter_row. rewrite (proj2 (is_senior_spec a.2 title Ht3) Hkw). simpl.
    unfold split_row. cbn [snd]. rewrite lookup_delete_ne, Hn3 by done.
    destruct (find 32 (strip name)) as [k|] eqn:Hk; [done |].
    by apply find_None in Hk.
Qed.

#[global] Instance survives_dec raw : Decision (survives raw).
Proof.
  destruct (decide (is_Some (pipeline_row (0, raw)))) as [Hy|Hn].
  - left. by apply (pipeline_row_survives (0, raw)).
  - right. intros Hs. by apply Hn, (pipeline_row_survives (0, raw)).
Defined.

Lemma pipeline_row_fst x r : pipeline_row x = Some r → r.1 = x.1.
Proof.
  unfold pipeline_row.
  destruct (load_row x) as [a|] eqn:Ha; [| done]. simpl.
  destruct (filter_row a) as [b|] eqn:Hb; [| done]. simpl.
  destruct (split_row b) as [c|] eqn:Hc; [| done]. simpl. intros [= <-].
  rewrite email_row_fst, domain_row_fst.
  apply load_row_Some in Ha as [<- _]. apply filter_row_Some in Hb as [_ ->].
  by apply split_row_fst in Hc.
Qed.


(** *** The properties of the specification *)

(** C1. The Executive Filter, given at least one record and records whose
    Title is a text, returns exactly the records whose lowered title contains
    one of the eleven keywords as a substring, in their order and otherwise
    unchanged; it keeps the title "Vice President of Engineering" and drops
    the title "Software Engineer". Given no record at all it does not return
    the empty record set: it raises. *)
Theorem filter_senior_execs_keeps_keyword_titles df :
  "Title" ∈ columns df →
  (∀ ir, ir ∈ rows df → has_text "Title" ir.2) →
  (rows df = [] → ∃ e, filter_senior_execs df = Raise e)
  ∧ (rows df ≠ [] →
     ∃ df', filter_senior_execs df = Ok df'
       ∧ columns df' = filter (λ c, c ≠ "is_senior") (columns df)
       ∧ rows df' = (λ ir, (ir.1, delete "is_senior" ir.2))
                      <$> filter (λ ir, is_senior ir.2 = true) (rows df))
    ∧ (∀ ir : nat * gmap string cell,
         ir.2 !! "is_senior" = None → (ir.1, delete "is_senior" ir.2) = ir)
    ∧ (∀ r t, r !! "Title" = Some (CStr t) →
         (is_senior r = true
          ↔ ∃ kw, kw ∈ u <$> ["chief"; "ceo"; "cmo"; "cto"; "cfo"; "coo";
                              "president"; "founder"; "co-founder"; "evp";
                              "svp"]
                  ∧ is_substring kw (lower t)))
    ∧ (∀ r, r !! "Title" = Some (CStr (u "Vice President of Engineering")) →
         is_senior r = true)
    ∧ (∀ r, r !! "Title" = Some (CStr (u "Software Engineer")) →
         is_senior r = false).
Proof.
  intros Hcol Htitles.
  split; [| split; [| split; [| split; [| split]]]].
  - intros Hnil. eexists. by apply filter_senior_execs_empty.
  - intros Hne. eexists. split; [| split].
    + apply filter_senior_execs_Ok; [done | done |]. apply Forall_forall. done.
    + done.
    + cbn [rows]. unfold filter_row.
      apply (omap_filter_fmap (λ ir, is_senior ir.2)
               (λ ir, (ir.1, delete "is_senior" ir.2))).
  - intros [i r] Hr. cbn [fst snd] in *. by rewrite delete_id.
  - intros r t Ht. apply is_senior_spec. done.
  - intros r Hr. unfold is_senior. rewrite Hr. vm_compute. done.
  - intros r Hr. unfold is_senior. rewrite Hr. vm_compute. done.
Qed.

(** C2, as the code has it. When the trimmed Name of at least one record
    holds a space, the Name Splitter returns, in their order, the records
    whose trimmed Name holds a space, with FirstName the text before the
    first space (never empty) and LastName everything after that one space;
    a record whose trimmed Name holds no space, so also one that holds no
    whitespace at all, is dropped. For "A B C" FirstName is "A" and LastName
    is "B C". *)
Theorem split_names_at_first_space df :
  "Name" ∈ columns df →
  (∃ ir x, ir ∈ rows df ∧ ir.2 !! "Name" = Some (CStr x) ∧ 32%N ∈ strip x) →
  ∃ df', split_names df = Ok df'
    ∧ rows df' = omap split_row (rows df)
    ∧ (∀ ir x first last,
         ir.2 !! "Name" = Some (CStr x) →
         strip x = first ++ 32%N :: last → 32%N ∉ first →
         first ≠ []
         ∧ split_row ir
           = Some (ir.1, <["LastName" := CStr last]>
                           (<["FirstName" := CStr first]> ir.2)))
    ∧ (∀ ir x, ir.2 !! "Name" = Some (CStr x) → 32%N ∉ strip x →
         split_row ir = None)
    ∧ (∀ ir x, ir.2 !! "Name" = Some (CStr x) →
         (∀ c, c ∈ strip x → isspace c = false) → split_row ir = None)
    ∧ (∀ ir, ir.2 !! "Name" = Some (CStr (u "A B C")) →
         split_row ir
         = Some (ir.1, <["LastName" := CStr (u "B C")]>
                         (<["FirstName" := CStr (u "A")]> ir.2))).
Proof.
  intros Hcol (ir0 & x0 & Hin & Hname & Hsp).
  assert (omap split_row (rows df) ≠ []) as Hne.
  { intros Hnil. apply find_None in Hsp; [done |].
    destruct (find 32 (strip x0)) as [k|] eqn:Hk; [| done]. exfalso.
    assert (is_Some (split_row ir0)) as [y Hy].
    { unfold split_row. rewrite Hname, Hk. eauto. }
    assert (y ∈ omap split_row (rows df)) as Hy'.
    { apply list_elem_of_omap. eauto. }
    rewrite Hnil in Hy'. by apply elem_of_nil in Hy'. }
  assert (∀ ir x, ir.2 !! "Name" = Some (CStr x) → 32%N ∉ strip x →
            split_row ir = None) as Hnone.
  { intros ir x Hx Hn. unfold split_row. rewrite Hx.
    apply find_None in Hn. rewrite Hn. done. }
  exists {| columns := with_column "LastName"
                         (with_column "FirstName" (columns df));
            rows := omap split_row (rows df) |}.
  split; [| split; [| split; [| split; [| split]]]].
  - rewrite split_names_spec by done.
    destruct (rows df) as [|r rs]; [by destruct Hne |].
    destruct (omap split_row (r :: rs)) as [|y ys] eqn:Ho; [by destruct Hne |].
    done.
  - done.
  - intros ir x first last Hx Hcut Hfirst. split.
    + by eapply strip_first_nonempty.
    + unfold split_row. rewrite Hx, Hcut, find_app by done.
      rewrite take_app_length.
      replace (S (length first)) with (length (first ++ [32%N]))
        by (rewrite length_app; simpl; lia).
      rewrite (cons_middle 32%N first last), app_assoc, drop_app_length. done.
  - done.
  - intros ir x Hx Hws. apply (Hnone ir x Hx). intros Hin'.
    apply Hws in Hin'. done.
  - intros ir Hx. unfold split_row. rewrite Hx. done.
Qed.

(** C3. The Domain Inferrer returns, for every Company string, the string
    the specification words: every character that is not a US-ASCII letter,
    digit or space deleted, the rest lowercased, all spaces deleted, and
    ".com" appended. The empty company gives ".com" and "AT&T" gives
    "att.com". *)
Theorem infer_domain_strips_lowers_appends company :
  infer_domain company = spec_infer_domain company
  ∧ infer_domain [] = u ".com"
  ∧ infer_domain (u "AT&T") = u "att.com"
  ∧ infer_domain (u "World Surf League") = u "worldsurfleague.com"
  ∧ infer_domain (u "Acme, Inc.") = u "acmeinc.com".
Proof.
  split; [apply infer_domain_spec |]. repeat split; vm_compute; done.
Qed.

(** C4, as the code has it. Domain inference is deterministic: equal
    Company strings give equal Domains. It is not idempotent: the domain of
    a domain is the first domain with "com" put before its ".com", so it
    differs from the first; only the stem before ".com" is stable under a
    second normalisation. *)
Theorem infer_domain_deterministic_not_idempotent c1 c2 :
  c1 = c2 →
  infer_domain c1 = infer_domain c2
  ∧ infer_domain c1 = spec_domain_stem c1 ++ u ".com"
  ∧ infer_domain (infer_domain c1) = spec_domain_stem c1 ++ u "com.com"
  ∧ infer_domain (infer_domain c1) ≠ infer_domain c1
  ∧ spec_domain_stem (spec_domain_stem c1) = spec_domain_stem c1.
Proof.
  intros <-. 
  assert (infer_domain (infer_domain c1) = spec_domain_stem c1 ++ u "com.com")
    as Htwice.
  { rewrite !infer_domain_spec. unfold spec_infer_domain.
    rewrite spec_domain_stem_app.
    rewrite (spec_domain_stem_fixed _ (spec_domain_stem_chars c1)).
    rewrite <- app_assoc. done. }
  split; [done |]. split; [apply infer_domain_spec |]. split; [done |].
  split.
  - rewrite Htwice, infer_domain_spec. unfold spec_infer_domain.
    intros Heq. apply (f_equal length) in Heq.
    rewrite !length_app in Heq. simpl in Heq. lia.
  - apply spec_domain_stem_fixed, spec_domain_stem_chars.
Qed.


Lemma restrict_lookup cols (r : gmap string cell) c :
  c ∈ cols → restrict cols r !! c = r !! c.
Proof.
  intros Hc. unfold restrict. apply option_eq. intros v.
  rewrite map_lookup_filter_Some. split; [by intros [? _] | done].
Qed.

Lemma csv_of_final_frame cfg sh :
  csv_of (final_frame cfg sh)
  = {| csv_header := final_columns;
       csv_records := take (MAX_EXECUTIVES cfg)
                        ((λ ir, (λ c, ir.2 !! c) <$> final_columns)
                           <$> final_rows sh) |}.
Proof.
  unfold csv_of, final_frame, head. cbn [columns rows]. f_equal.
  rewrite <- fmap_take, <- fmap_take, <- list_fmap_compose.
  apply list_fmap_ext. intros _ ir _. cbn [compose snd].
  apply list_fmap_ext. intros j c Hc. apply restrict_lookup.
  by apply list_elem_of_lookup_2 in Hc.
Qed.

Lemma written_csv cfg sh w :
  csv_files (written cfg sh w) !! OUTPUT_FILE cfg
  = Some (csv_of (final_frame cfg sh)).
Proof.
  unfold written, emit, exported, to_csv. cbn [csv_files].
  apply lookup_insert_eq.
Qed.




Lemma index_omap {A} (f : nat * A → option (nat * gmap string cell))
  (l : list (nat * A)) i :
  (∀ x y, f x = Some y → y.1 = x.1) → i ∈ (omap f l).*1 → i ∈ l.*1.
Proof.
  intros Hf Hi. apply list_elem_of_fmap in Hi as (y & -> & Hy).
  apply list_elem_of_omap in Hy as (x & Hx & Hxy).
  rewrite (Hf x y Hxy). by apply list_elem_of_fmap_2.
Qed.

Lemma index_loaded sh i raw :
  sheet_rows sh !! i = Some raw →
  i ∈ (loaded_rows sh).*1
  ↔ ∀ c, c ∈ ["Name"; "Title"; "Company"] → ¬ blank raw c.
Proof.
  intros Hraw. unfold loaded_rows. rewrite list_elem_of_fmap. split.
  - intros (ir & -> & Hir) c Hc Hb.
    apply list_elem_of_omap in Hir as (x & Hx & Hl).
    apply elem_of_indexed in Hx.
    assert (load_row x = None) as Hn; [| congruence].
    apply load_row_None. exists c. split; [done |].
    apply load_row_Some in Hl as [H1 _]. rewrite H1 in Hraw. congruence.
  - intros Hnb. destruct (load_row (i, raw)) as [ir|] eqn:Hl.
    + exists ir. split.
      * apply load_row_Some in Hl as [H1 _]. done.
      * apply list_elem_of_omap. exists (i, raw). split; [| done].
        by apply elem_of_indexed.
    + apply load_row_None in Hl as (c & Hc & Hb). by destruct (Hnb c Hc).
Qed.

Lemma index_senior sh i : i ∈ (senior_rows sh).*1 → i ∈ (loaded_rows sh).*1.
Proof.
  apply index_omap. intros x y Hy. by apply filter_row_Some in Hy as [_ ->].
Qed.

Lemma index_named sh i : i ∈ (named_rows sh).*1 → i ∈ (loaded_rows sh).*1.
Proof.
  intros Hi. apply index_senior. revert Hi. apply index_omap.
  intros x y Hy. by eapply split_row_fst.
Qed.

Lemma index_domain sh i :
  i ∈ (domain_row <$> named_rows sh).*1 → i ∈ (loaded_rows sh).*1.
Proof.
  intros Hi. apply index_named. rewrite <- list_fmap_compose in Hi.
  erewrite list_fmap_ext; [exact Hi |]. intros _ ir _. simpl.
  by rewrite domain_row_fst.
Qed.

Lemma index_final sh i : i ∈ (final_rows sh).*1 → i ∈ (loaded_rows sh).*1.
Proof.
  intros Hi. apply index_named.
  rewrite final_rows_named, <- list_fmap_compose in Hi.
  erewrite list_fmap_ext; [exact Hi |]. intros _ ir _. simpl.
  by rewrite email_row_fst, domain_row_fst.
Qed.

(** C7. The Loader, on a workbook that has the three columns, drops every
    row in which Name, Title or Company is missing or empty and keeps the
    others; a dropped row is in the output of no later stage, and every row
    the Loader keeps holds a non-empty text in each of the three columns. *)
Theorem load_data_drops_blank_rows w path sh :
  excel_files w !! path = Some sh →
  ["Name"; "Title"; "Company"] ⊆ sheet_columns sh →
  ∃ df, load_data w path = Ok df
    ∧ (∀ ir c, ir ∈ rows df → c ∈ ["Name"; "Title"; "Company"] →
         ∃ s, ir.2 !! c = Some (CStr s) ∧ s ≠ [])
    ∧ (∀ i raw, sheet_rows sh !! i = Some raw →
         i ∈ index df
         ↔ ∀ c, c ∈ ["Name"; "Title"; "Company"] → ¬ blank raw c)
    ∧ (∀ i raw c,
         sheet_rows sh !! i = Some raw →
         c ∈ ["Name"; "Title"; "Company"] → blank raw c →
         (i ∉ index df)
         ∧ ∀ df2, filter_senior_execs df = Ok df2 →
           (i ∉ index df2)
           ∧ ∀ df3, split_names df2 = Ok df3 →
             (i ∉ index df3)
             ∧ ∀ df4, add_domains df3 = Ok df4 →
               (i ∉ index df4)
               ∧ ∀ df5, generate_emails df4 = Ok df5 →
                 (i ∉ index df5)
                 ∧ ∀ df6 n, getitem_list final_columns df5 = Ok df6 →
                   i ∉ index (head n df6)).
Proof.
  intros Hsh Hsub. exists (loaded_frame sh).
  split; [by apply load_data_Ok |]. split; [| split].
  - intros ir c Hir Hc.
    pose proof (proj1 (Forall_forall _ _) (loaded_rows_from_sheet sh) ir Hir)
      as (raw & _ & Hraw).
    destruct (Hraw c Hc) as (s & _ & Hne & Hs). eauto.
  - intros i raw Hraw. by apply index_loaded.
  - intros i raw c Hraw Hc Hb.
    assert (i ∉ (loaded_rows sh).*1) as Hout.
    { rewrite (index_loaded sh i raw Hraw). intros Hnb. by apply (Hnb c). }
    split; [done |]. intros df2 Hdf2.
    destruct (decide (loaded_rows sh = [])) as [Hnil | Hne].
    { rewrite filter_loaded_empty in Hdf2 by done. done. }
    rewrite filter_loaded in Hdf2 by done. injection Hdf2 as <-.
    split; [intros Hi; by apply Hout, index_senior |].
    intros df3. rewrite split_senior. intros Hdf3.
    assert (df3 = named_frame sh) as ->.
    { destruct (senior_rows sh); [done |]. destruct (named_rows sh); [done |].
      by injection Hdf3. }
    split; [intros Hi; by apply Hout, index_named |].
    intros df4. rewrite domains_named. intros [= <-].
    split; [intros Hi; by apply Hout, index_domain |].
    intros df5. rewrite emails_domain. intros [= <-].
    split; [intros Hi; by apply Hout, index_final |].
    intros df6 n. rewrite getitem_list_Ok by (apply missing_nil; compute_done).
    intros [= <-] Hi. apply Hout, index_final.
    unfold index, head in Hi. cbn [rows email_frame] in Hi.
    rewrite fmap_take, <- list_fmap_compose in Hi.
    apply subseteq_take in Hi. exact Hi.
Qed.


(** What a surviving row of the workbook becomes, field by field. *)
Lemma pipeline_row_fields x r :
  pipeline_row x = Some r →
  ∃ name title company k,
    x.2 !! "Name" = Some name ∧ x.2 !! "Title" = Some title
    ∧ x.2 !! "Company" = Some company
    ∧ find 32 (strip name) = Some k
    ∧ r.1 = x.1
    ∧ r.2 !! "Name" = Some (CStr name)
    ∧ r.2 !! "Title" = Some (CStr title)
    ∧ r.2 !! "Company" = Some (CStr company)
    ∧ r.2 !! "FirstName" = Some (CStr (take k (strip name)))
    ∧ r.2 !! "LastName" = Some (CStr (drop (S k) (strip name)))
    ∧ r.2 !! "Domain" = Some (CStr (infer_domain company))
    ∧ r.2 !! "Email_1"
      = Some (CStr (lower (take k (strip name)) ++ u "."
                    ++ lower (drop (S k) (strip name)) ++ u "@"
                    ++ infer_domain company))
    ∧ r.2 !! "Email_2"
      = Some (CStr (lower (take k (strip name)) ++ u "@"
                    ++ infer_domain company)).
Proof.
  intros Hr. pose proof (pipeline_row_fst x r Hr) as Hfst. revert Hr.
  unfold pipeline_row.
  destruct (load_row x) as [a|] eqn:Ha; [| done]. simpl.
  destruct (filter_row a) as [b|] eqn:Hb; [| done]. simpl.
  destruct (split_row b) as [c|] eqn:Hc; [| done]. simpl. intros [= <-].
  apply load_row_Some in Ha as [_ Ha].
  destruct (Ha "Name") as (name & Hn1 & _ & Hn3); [compute_done |].
  destruct (Ha "Title") as (title & Ht1 & _ & Ht3); [compute_done |].
  destruct (Ha "Company") as (company & Hc1 & _ & Hc3); [compute_done |].
  apply filter_row_Some in Hb as [_ ->].
  apply split_row_Some in Hc as (n & k & Hn & Hk & ->). cbn [snd] in Hn.
  rewrite lookup_delete_ne, Hn3 in Hn by done. injection Hn as <-.
  exists name, title, company, k. repeat (split; [done |]).
  unfold email_row, domain_row. cbn [fst snd].
  rewrite !lookup_insert_ne, lookup_delete_ne, Hc3 by done. cbn [fst snd].
  rewrite (lookup_insert_ne _ "Domain" "FirstName") by done.
  rewrite (lookup_insert_ne _ "LastName" "FirstName") by done.
  rewrite (lookup_insert_ne _ "Domain" "LastName") by done.
  rewrite !lookup_insert_eq. cbn [fst snd].
  repeat split; simplify_map_eq; done.
Qed.


Lemma find_before c (a b : pystr) k :
  find c (a ++ c :: b) = Some k → k ≤ length a.
Proof.
  intros Hk. apply find_Some in Hk as [_ Hn].
  destruct (decide (k ≤ length a)) as [|Hgt]; [done |]. destruct Hn.
  apply elem_of_take. exists (length a). split; [| lia].
  by rewrite list_lookup_middle.
Qed.

(** C10. There is a workbook row that survives every stage and whose
    Email_1 holds a space: a row named "Mary Ann Smith" is written with
    Email_1 "mary.ann smith@att.com". It is so for every surviving row whose
    trimmed Name holds two spaces or more, because LastName keeps all that
    follows the first space and the Email Generator only lowers it. *)
Theorem email_1_keeps_inner_spaces :
  (∃ csv e,
     csv_files (main demo_config demo_world).1 !! OUTPUT_FILE demo_config
     = Some csv
     ∧ [Some (CStr (u "Mary")); Some (CStr (u "Ann Smith"));
        Some (CStr (u "Vice President of Engineering")); Some (CStr (u "AT&T"));
        Some (CStr e); Some (CStr (u "mary@att.com"))] ∈ csv_records csv
     ∧ e = u "mary.ann smith@att.com" ∧ 32%N ∈ e)
  ∧ (∀ x r name a b c,
       pipeline_row x = Some r → x.2 !! "Name" = Some name →
       strip name = a ++ 32%N :: b ++ 32%N :: c →
       ∃ e, r.2 !! "Email_1" = Some (CStr e) ∧ 32%N ∈ e).
Proof.
  split.
  - exists (csv_of (final_frame demo_config demo_sheet)),
      (u "mary.ann smith@att.com").
    split; [| split; [| split]].
    + apply main_csv.
      * vm_compute. reflexivity.
      * apply missing_nil. vm_compute. reflexivity.
      * intros Hnil. apply (f_equal length) in Hnil. vm_compute in Hnil.
        discriminate Hnil.
    + vm_compute. right. left.
    + reflexivity.
    + vm_compute. apply list_elem_of_In. simpl. tauto.
  - intros x r name a b c Hr Hname Hcut.
    apply pipeline_row_fields in Hr
      as (name' & title & company & k & Hn & _ & _ & Hk & _ & _ & _ & _ & _
          & _ & _ & He1 & _).
    rewrite Hname in Hn. injection Hn as <-.
    eexists. split; [exact He1 |].
    rewrite !elem_of_app. right. right. left. apply lower_from_space.
    rewrite Hcut in Hk |- *. apply find_before in Hk.
    apply list_elem_of_lookup. exists (length a + length b - k).
    rewrite lookup_drop.
    replace (S k + (length a + length b - k)) with (length a + S (length b))
      by lia.
    rewrite lookup_app_r by lia.
    replace (length a + S (length b) - length a) with (S (length b)) by lia.
    change ((b ++ 32%N :: c) !! length b = Some 32%N).
    by apply list_lookup_middle.
Qed.

(** X2. When the workbook is read and has the three columns but no row
    survives every stage, the run does not write an empty file: it ends with
    an exception that is neither a FileError nor a FormatError and leaves
    the world as it found it: no file written, no directory made, nothing
    printed. *)
Theorem main_raises_when_no_row_survives cfg w sh :
  excel_files w !! INPUT_FILE cfg = Some sh →
  ["Name"; "Title"; "Company"] ⊆ sheet_columns sh →
  final_rows sh = [] →
  ∃ e, main cfg w = (w, Raise e) ∧ ¬ FileError e ∧ ¬ FormatError e.
Proof.
  intros Hsh Hsub Hnone. rewrite main_outcome. unfold outcome. rewrite Hsh.
  apply missing_nil in Hsub. rewrite Hsub.
  apply named_rows_nil_final in Hnone. rewrite Hnone.
  assert (∀ l, l ∉ LStr <$> ["Name"; "Title"; "Company"] →
               ¬ FileError (KeyError [l]) ∧ ¬ FormatError (KeyError [l]))
    as Hother.
  { intros l Hl. split.
    - intros [[q Hq] | Hq]; done.
    - intros (m & _ & Hm & Heq). destruct m as [|c [|? ?]]; try done.
      injection Heq as ->. apply Hl, list_elem_of_fmap_2, Hm. left. }
  destruct (loaded_rows sh); [| destruct (senior_rows sh)];
    (eexists; split; [done |]; apply Hother; compute_done).
Qed.

End PipelineProperties.

(** ** Further properties of the stages and of a run *)

(** ** [str.strip]: what it removes *)

Lemma lstrip_cut s : ∃ pre, s = pre ++ lstrip s ∧ all_space pre.
Proof.
  induction s as [|c s (pre & Hs & Hpre)].
  - exists []. split; [done | constructor].
  - simpl. destruct (isspace c) eqn:Hc.
    + exists (c :: pre). split; [by rewrite Hs at 1 | by constructor].
    + exists []. split; [done | constructor].
Qed.

Lemma rstrip_cut s : ∃ post, s = rstrip s ++ post ∧ all_space post.
Proof.
  destruct (lstrip_cut (rev s)) as (pre & Hs & Hpre).
  exists (rev pre). split.
  - unfold rstrip. rewrite <- rev_app_distr, <- Hs, rev_involutive. done.
  - unfold all_space in *. apply Forall_forall. intros c Hc.
    apply list_elem_of_In, in_rev, list_elem_of_In in Hc.
    by apply (proj1 (Forall_forall _ _) Hpre).
Qed.

Lemma rstrip_last s l c : rstrip s = l ++ [c] → isspace c = false.
Proof.
  intros Hs. pose proof (lstrip_head (rev s)) as Hh.
  unfold rstrip in Hs. apply (f_equal (@rev N)) in Hs.
  rewrite rev_involutive, rev_app_distr in Hs. simpl in Hs.
  rewrite Hs in Hh. done.
Qed.

(** [s.strip()] is what is left of [s] between a whitespace prefix and a
    whitespace suffix, and neither starts nor ends with whitespace. *)
Lemma strip_cut s :
  ∃ pre post, s = pre ++ strip s ++ post ∧ all_space pre ∧ all_space post.
Proof.
  destruct (rstrip_cut s) as (post & Hs & Hpost).
  destruct (lstrip_cut (rstrip s)) as (pre & Hr & Hpre).
  exists pre, post. split; [| done].
  unfold strip. rewrite app_assoc, <- Hr. done.
Qed.

Lemma strip_last s l c : strip s = l ++ [c] → isspace c = false.
Proof.
  intros Hs. destruct (lstrip_cut (rstrip s)) as (pre & Hr & _).
  fold (strip s) in Hr. rewrite Hs, app_assoc in Hr.
  by apply rstrip_last in Hr.
Qed.

(** Where a trimmed name is cut: both parts are not empty, the first holds no
    space and does not start with whitespace, the second does not end with
    whitespace. *)
Lemma strip_find_parts x k :
  find 32 (strip x) = Some k →
  strip x = take k (strip x) ++ 32%N :: drop (S k) (strip x)
  ∧ take k (strip x) ≠ [] ∧ drop (S k) (strip x) ≠ []
  ∧ 32%N ∉ take k (strip x).
Proof.
  intros Hk. apply find_Some in Hk as [Hcut Hn].
  split; [done |]. split; [by eapply strip_first_nonempty |]. split; [| done].
  intros Hnil. rewrite Hnil in Hcut.
  apply (strip_last x (take k (strip x)) 32%N) in Hcut. done.
Qed.

(** ** [infer_domain]: what it keeps of a company name *)

Lemma spec_domain_stem_cons c s :
  spec_domain_stem (c :: s)
  = (if is_ascii_letter_digit c then [ascii_lower c] else [])
    ++ spec_domain_stem s.
Proof.
  change (c :: s) with ([c] ++ s). rewrite spec_domain_stem_app. f_equal.
  unfold spec_domain_stem, is_ascii_letter_digit.
  destruct (N.eqb_spec c 32) as [-> | Hne]; [done |].
  destruct (in_range 97 122 c || in_range 65 90 c || in_range 48 57 c) eqn:Hc.
  - assert (is_ascii_letter_digit_space c = true) as Hs
      by (unfold is_ascii_letter_digit_space; rewrite Hc; done).
    assert (ascii_lower c ≠ 32%N) as Hl.
    { unfold ascii_lower, is_ascii_upper, in_range in *.
      destruct ((65 <=? c)%N && (c <=? 90)%N) eqn:Hup; [| done].
      apply andb_true_iff in Hup as [H1 H2]. apply N.leb_le in H1, H2. lia. }
    rewrite (filter_cons_True (λ c0, is_ascii_letter_digit_space c0 = true)
               c [] Hs).
    apply (filter_cons_True (λ c0, c0 ≠ 32%N) (ascii_lower c) [] Hl).
  - assert (is_ascii_letter_digit_space c ≠ true) as Hs.
    { unfold is_ascii_letter_digit_space. rewrite Hc.
      destruct (N.eqb_spec c 32); done. }
    by rewrite (filter_cons_False (λ c0, is_ascii_letter_digit_space c0 = true)
                  c [] Hs).
Qed.

Lemma ascii_lower_letter_digit c :
  is_ascii_letter_digit (ascii_lower c) = is_ascii_letter_digit c.
Proof.
  unfold ascii_lower, is_ascii_upper.
  destruct (in_range 65 90 c) eqn:Hup; [| done].
  unfold is_ascii_letter_digit. rewrite Hup.
  unfold in_range in *.
  apply andb_true_iff in Hup as [H1 H2]. apply N.leb_le in H1, H2.
  rewrite orb_true_r. cbn [orb].
  apply orb_true_iff. left. apply orb_true_iff. left.
  apply andb_true_iff. split; apply N.leb_le; lia.
Qed.

Lemma ascii_lower_twice c : ascii_lower (ascii_lower c) = ascii_lower c.
Proof.
  unfold ascii_lower at 1. by rewrite ascii_lower_not_upper.
Qed.

Lemma spec_domain_stem_nil company :
  spec_domain_stem company = []
  ↔ Forall (λ c, is_ascii_letter_digit c = false) company.
Proof.
  induction company as [|c s IH].
  - split; [constructor | done].
  - rewrite spec_domain_stem_cons, Forall_cons.
    destruct (is_ascii_letter_digit c); cbn [app].
    + split; [done | by intros [? _]].
    + rewrite IH. split; [done | by intros [_ ?]].
Qed.

Lemma spec_domain_stem_letters_digits company :
  spec_domain_stem (filter (λ c, is_ascii_letter_digit c = true) company)
  = spec_domain_stem company.
Proof.
  induction company as [|c s IH]; [done |].
  rewrite spec_domain_stem_cons.
  destruct (is_ascii_letter_digit c) eqn:Hc.
  - rewrite filter_cons_True by done.
    rewrite spec_domain_stem_cons, Hc, IH. done.
  - rewrite filter_cons_False by (rewrite Hc; done). by rewrite IH.
Qed.

Lemma spec_domain_stem_lower company :
  spec_domain_stem (ascii_lower <$> company) = spec_domain_stem company.
Proof.
  induction company as [|c s IH]; [done |].
  rewrite fmap_cons, !spec_domain_stem_cons, IH.
  by rewrite ascii_lower_letter_digit, ascii_lower_twice.
Qed.

Section Domains.

Context `{UnicodeTables}.

Lemma infer_domain_stem company :
  infer_domain company = spec_domain_stem company ++ u ".com".
Proof. by rewrite infer_domain_spec. Qed.

(** X8. [infer_domain] returns a stem followed by ".com"; the stem holds
    lower-case US-ASCII letters and digits only, is no longer than the
    company name, and is empty exactly when the company name holds no
    US-ASCII letter or digit (the empty name, punctuation, a name in another
    script): the domain is then ".com" alone. *)
Theorem infer_domain_shape company :
  ∃ stem,
    infer_domain company = stem ++ u ".com"
    ∧ Forall (λ c, is_stem_char c = true) stem
    ∧ length stem ≤ length company
    ∧ (stem = [] ↔ Forall (λ c, is_ascii_letter_digit c = false) company).
Proof.
  exists (spec_domain_stem company).
  split; [apply infer_domain_stem |].
  split; [apply spec_domain_stem_chars |].
  split; [| apply spec_domain_stem_nil].
  unfold spec_domain_stem.
  etrans; [apply length_filter |]. rewrite length_fmap. apply length_filter.
Qed.

(** X9. [infer_domain] sees only the US-ASCII letters and digits of a
    company name, and not their case: dropping every other character,
    lowering the capitals, or inserting a character that is not a US-ASCII
    letter or digit, does not change the domain. Companies whose names
    differ in this way only get the same domain. *)
Theorem infer_domain_ignores_case_and_punctuation company :
  infer_domain (filter (λ c, is_ascii_letter_digit c = true) company)
  = infer_domain company
  ∧ infer_domain (ascii_lower <$> company) = infer_domain company
  ∧ ∀ a c b, is_ascii_letter_digit c = false →
      infer_domain (a ++ c :: b) = infer_domain (a ++ b).
Proof.
  rewrite !infer_domain_stem.
  rewrite spec_domain_stem_letters_digits, spec_domain_stem_lower.
  split; [done |]. split; [done |].
  intros a c b Hc. rewrite !infer_domain_stem. f_equal.
  rewrite !spec_domain_stem_app, spec_domain_stem_cons, Hc. done.
Qed.

End Domains.

(** ** The keyword test *)

(** X14. The keyword "co-founder" never decides: a title that contains it
    contains "founder", so the test of [filter_senior_execs] is the test with
    the ten other keywords. *)
Theorem co_founder_keyword_is_redundant title :
  (contains (u "co-founder") title = true → contains (u "founder") title = true)
  ∧ is_senior_title (Some (CStr title))
    = Ok (Some (CBool (any (λ keyword, contains keyword title)
                         [u "chief"; u "ceo"; u "cmo"; u "cto"; u "cfo";
                          u "coo"; u "president"; u "founder"; u "evp";
                          u "svp"]))).
Proof.
  assert (contains (u "co-founder") title = true
          → contains (u "founder") title = true) as Himp.
  { rewrite !contains_spec. intros (pre & post & ->).
    exists (pre ++ u "co-"), post. by rewrite <- app_assoc. }
  split; [done |].
  unfold is_senior_title, senior_keywords, any. cbn [existsb].
  destruct (contains (u "founder") title) eqn:Hf;
    destruct (contains (u "co-founder") title) eqn:Hc; try reflexivity.
  by specialize (Himp eq_refl).
Qed.

(** ** The stages as functions on frames *)

(** [s.apply(f)] ends with the exception of the first element [f] raises on. *)
Lemma apply_Raise {A} f e (g : A → option cell) (i : A → nat) (l : list A) :
  Forall (λ x, (∃ y, f (g x) = Ok y) ∨ f (g x) = Raise e) l →
  Exists (λ x, f (g x) = Raise e) l →
  apply f ((λ x, (i x, g x)) <$> l) = Raise e.
Proof.
  induction 1 as [|x l Hx _ IH]; intros Hex; [by apply Exists_nil in Hex |].
  rewrite fmap_cons. cbn [apply snd].
  destruct Hx as [[y Hy] | Hx].
  - rewrite Hy. ret. apply Exists_cons in Hex as [Hex | Hex]; [congruence |].
    by rewrite IH.
  - by rewrite Hx.
Qed.

Lemma with_column_twice c cols :
  with_column c (with_column c cols) = with_column c cols.
Proof.
  unfold with_column at 1. rewrite decide_True; [done |].
  unfold with_column. destruct (decide (c ∈ cols)); [done |].
  apply elem_of_app. right. left.
Qed.

Lemma with_column_mono c c' cols : c' ∈ cols → c' ∈ with_column c cols.
Proof.
  intros Hc. unfold with_column. destruct (decide (c ∈ cols)); [done |].
  apply elem_of_app. by left.
Qed.

Section Stages.

Context `{UnicodeTables}.

(** *** STEP 4 *)

Lemma domain_row_text_eq ir c :
  ir.2 !! "Company" = Some (CStr c) →
  domain_row ir = (ir.1, <["Domain" := CStr (infer_domain c)]> ir.2).
Proof. intros Hc. unfold domain_row. by rewrite Hc. Qed.

Lemma domain_row_twice ir :
  has_text "Company" ir.2 → domain_row (domain_row ir) = domain_row ir.
Proof.
  intros [c Hc]. rewrite (domain_row_text_eq ir c Hc).
  rewrite (domain_row_text_eq _ c) by (cbn [snd]; by rewrite lookup_insert_ne).
  cbn [fst snd]. by rewrite insert_insert_eq.
Qed.

(** X10. [add_domains], on a frame with a Company column whose cells are
    all texts, returns the frame with a Domain column (a new last column, or
    the Domain column it had, overwritten) and the rows in their order, each
    with its index label and with Domain set to [infer_domain] of its
    Company, otherwise unchanged; applied to its own result it returns that
    result. *)
Theorem add_domains_adds_domain df :
  "Company" ∈ columns df →
  (∀ ir, ir ∈ rows df → has_text "Company" ir.2) →
  ∃ df', add_domains df = Ok df'
    ∧ columns df'
      = (if decide ("Domain" ∈ columns df) then columns df
         else columns df ++ ["Domain"])
    ∧ Forall2
        (λ ir ir', ∃ c, ir.2 !! "Company" = Some (CStr c)
           ∧ ir' = (ir.1, <["Domain" := CStr (infer_domain c)]> ir.2))
        (rows df) (rows df')
    ∧ add_domains df' = Ok df'.
Proof.
  intros Hcol Htext. apply Forall_forall in Htext.
  eexists. split; [by apply add_domains_Ok |]. cbn [columns rows].
  split; [done |]. split.
  - apply Forall2_fmap_r, Forall_Forall2_diag.
    eapply Forall_impl; [exact Htext |]. intros ir [c Hc].
    exists c. split; [done |]. by apply domain_row_text_eq.
  - rewrite add_domains_Ok; cbn [columns rows].
    + f_equal. f_equal; [apply with_column_twice |].
      rewrite <- list_fmap_compose.
      apply (fmap_ext_Forall _ _ _ _ Htext). intros ir Hir.
      by apply domain_row_twice.
    + by apply with_column_mono.
    + apply Forall_fmap. eapply Forall_impl; [exact Htext |].
      intros ir [c Hc]. exists c. cbn [compose].
      by rewrite domain_row_lookup.
Qed.

(** X11. [add_domains] raises in two cases only: the [KeyError] for
    Company when the frame has no Company column, and a [TypeError] when the
    column holds a cell that is not a text (a missing value). *)
Theorem add_domains_raises df e :
  add_domains df = Raise e
  ↔ (("Company" ∉ columns df) ∧ e = KeyError [LStr "Company"])
    ∨ ("Company" ∈ columns df
       ∧ (∃ ir, ir ∈ rows df ∧ ¬ has_text "Company" ir.2)
       ∧ e = TypeError).
Proof.
  destruct (decide ("Company" ∈ columns df)) as [Hcol | Hcol].
  2:{ unfold add_domains. rewrite getitem_Raise by done. ret.
      split; [intros [= <-]; by left |].
      by intros [[_ ->] | [? _]]. }
  destruct (decide (Forall (λ ir, has_text "Company" ir.2) (rows df)))
    as [Htext | Htext].
  - rewrite add_domains_Ok by done. split; [done |].
    intros [[? _] | (_ & (ir & Hir & Hno) & _)]; [done |].
    destruct Hno. by apply (proj1 (Forall_forall _ _) Htext).
  - apply not_Forall_Exists in Htext; [| apply _].
    unfold add_domains. rewrite getitem_Ok by done. ret.
    rewrite (apply_Raise _ TypeError).
    + ret. split.
      * intros [= <-]. right. split; [done |]. split; [| done].
        apply Exists_exists in Htext as (ir & Hir & Hno). by exists ir.
      * by intros [[? _] | (_ & _ & ->)].
    + apply Forall_forall. intros ir _. cbn [snd].
      destruct (ir.2 !! "Company") as [[c|b]|]; cbn; eauto.
    + eapply Exists_impl; [exact Htext |]. intros ir Hno. cbn [snd].
      destruct (ir.2 !! "Company") as [[c|b]|] eqn:Hc; cbn; [| done | done].
      destruct Hno. by exists c.
Qed.


(** *** STEP 2 *)

Lemma filter_row_twice ir ir' :
  filter_row ir = Some ir' → filter_row ir' = Some ir'.
Proof.
  intros Hf. apply filter_row_Some in Hf as [Hs ->].
  unfold filter_row, is_senior in *. cbn [fst snd].
  rewrite lookup_delete_ne by done. rewrite Hs.
  by rewrite delete_delete_eq.
Qed.

Lemma omap_fixed {A} (f : A → option A) (l : list A) :
  Forall (λ x, f x = Some x) l → omap f l = l.
Proof.
  induction 1 as [|x l Hx _ IH]; [done |].
  by rewrite (omap_cons_Some _ _ _ _ Hx), IH.
Qed.

Lemma filter_twice {A} (P : A → Prop) `{∀ x, Decision (P x)} (l : list A) :
  filter P (filter P l) = filter P l.
Proof.
  induction l as [|x l IH]; [done |].
  destruct (decide (P x)) as [Hx | Hx].
  - rewrite (filter_cons_True P x l Hx), (filter_cons_True P x _ Hx). by rewrite IH.
  - by rewrite (filter_cons_False P x l Hx).
Qed.

(** X12. [filter_senior_execs] on a frame whose titles are texts and that
    has a senior row: the frame it returns has the columns of the frame
    without [is_senior] (a column of that name is lost), is not empty, has no
    [is_senior] cell, and is a fixed point: filtering it again returns it
    unchanged. *)
Theorem filter_senior_execs_idempotent df :
  "Title" ∈ columns df →
  (∀ ir, ir ∈ rows df → has_text "Title" ir.2) →
  (∃ ir, ir ∈ rows df ∧ is_senior ir.2 = true) →
  ∃ df', filter_senior_execs df = Ok df'
    ∧ columns df' = filter (λ c, c ≠ "is_senior") (columns df)
    ∧ rows df' ≠ []
    ∧ (∀ ir, ir ∈ rows df' → ir.2 !! "is_senior" = None)
    ∧ filter_senior_execs df' = Ok df'.
Proof.
  intros Hcol Htext (ir0 & Hir0 & Hs0). apply Forall_forall in Htext.
  assert (rows df ≠ []) as Hne.
  { intros Hnil. rewrite Hnil in Hir0. by apply elem_of_nil in Hir0. }
  assert (omap filter_row (rows df) ≠ []) as Hkept.
  { intros Hnil.
    assert ((ir0.1, delete "is_senior" ir0.2) ∈ omap filter_row (rows df))
      as Hin.
    { apply list_elem_of_omap. exists ir0. split; [done |].
      unfold filter_row. by rewrite Hs0. }
    rewrite Hnil in Hin. by apply elem_of_nil in Hin. }
  eexists. split; [by apply filter_senior_execs_Ok |]. cbn [columns rows].
  split; [done |]. split; [done | split].
  - intros ir Hir. apply list_elem_of_omap in Hir as (x & _ & Hx).
    apply filter_row_Some in Hx as [_ ->]. cbn [snd]. apply lookup_delete_eq.
  - rewrite filter_senior_execs_Ok; cbn [columns rows].
    + f_equal. f_equal; [apply filter_twice |].
      apply omap_fixed, Forall_omap_intro. intros x y. apply filter_row_twice.
    + apply list_elem_of_filter. done.
    + done.
    + apply Forall_forall. intros y Hy.
      apply list_elem_of_omap in Hy as (x & Hx & Hxy).
      assert (has_text "Title" y.2) as [t Ht]; [| by exists t].
      apply (filter_row_texts x y); [done | done |].
      by apply (proj1 (Forall_forall _ _) Htext).
Qed.

(** X13. [filter_senior_execs] raises a [TypeError] on a frame whose Title
    column holds a text and a cell that is not a text (a missing value): the
    keyword test is applied to the missing value. ([load_data] drops such
    rows before the filter sees them.) *)
Theorem filter_senior_execs_raises df :
  "Title" ∈ columns df →
  (∃ ir, ir ∈ rows df ∧ has_text "Title" ir.2) →
  (∃ ir, ir ∈ rows df ∧ ¬ has_text "Title" ir.2) →
  filter_senior_execs df = Raise TypeError.
Proof.
  intros Hcol _ (ir & Hir & Hno). unfold filter_senior_execs.
  rewrite getitem_Ok by done. ret.
  rewrite (str_lower_fmap (λ ir, ir.2 !! "Title") fst).
  rewrite (apply_Raise _ TypeError); [done | |].
  - apply Forall_forall. intros x _. cbn beta.
    destruct (x.2 !! "Title") as [[t|b]|]; cbn; eauto.
  - apply Exists_exists. exists ir. split; [done |]. cbn beta.
    destruct (ir.2 !! "Title") as [[t|b]|] eqn:Ht; cbn; [| done | done].
    destruct Hno. by exists t.
Qed.

(** *** STEP 3 *)

Lemma split_names_Ok_inv df df' :
  split_names df = Ok df' →
  "Name" ∈ columns df
  ∧ columns df' = with_column "LastName" (with_column "FirstName" (columns df))
  ∧ rows df' = omap split_row (rows df)
  ∧ rows df' ≠ [].
Proof.
  intros Hok.
  destruct (decide ("Name" ∈ columns df)) as [Hcol | Hcol].
  2:{ unfold split_names in Hok. rewrite getitem_Raise in Hok by done. done. }
  split; [done |]. rewrite split_names_spec in Hok by done.
  destruct (rows df) as [|ir rs]; [done |].
  destruct (omap split_row (ir :: rs)) as [|y ys] eqn:Hs; [done |].
  injection Hok as <-. cbn [columns rows]. done.
Qed.

(** X7. Whenever [split_names] returns, the frame had a Name column, the
    result is not empty, and every row of the result is a row of the frame
    with the two new cells, whose Name reads: whitespace, FirstName, one
    space, LastName, whitespace; the FirstName is not empty and holds no
    space, the LastName is not empty. So the name can be put together again
    from the two parts, up to the whitespace around it. *)
Theorem split_names_round_trip df df' :
  split_names df = Ok df' →
  "Name" ∈ columns df
  ∧ rows df' ≠ []
  ∧ Forall
      (λ ir', ∃ ir name first last before after,
         ir ∈ rows df
         ∧ ir.2 !! "Name" = Some (CStr name)
         ∧ ir' = (ir.1, <["LastName" := CStr last]>
                          (<["FirstName" := CStr first]> ir.2))
         ∧ name = before ++ first ++ u " " ++ last ++ after
         ∧ all_space before ∧ all_space after
         ∧ first ≠ [] ∧ last ≠ [] ∧ 32%N ∉ first)
      (rows df').
Proof.
  intros Hok. apply split_names_Ok_inv in Hok as (Hcol & _ & Hrows & Hne).
  split; [done |]. split; [done |]. rewrite Hrows.
  apply Forall_forall. intros ir' Hir'.
  apply list_elem_of_omap in Hir' as (ir & Hir & Hs).
  apply split_row_Some in Hs as (name & k & Hname & Hk & ->).
  destruct (strip_cut name) as (before & after & Hcut & Hb & Ha).
  apply strip_find_parts in Hk as (Hparts & Hf & Hl & Hno).
  exists ir, name, (take k (strip name)), (drop (S k) (strip name)), before, after.
  repeat (split; [done |]). split.
  { rewrite Hcut at 1. rewrite Hparts at 1.
    by rewrite <- !app_assoc. }
  repeat (split; [done |]). done.
Qed.

End Stages.

(** ** The records of a run *)

Section Records.

Context `{UnicodeTables}.

Lemma any_keyword t :
  any (λ keyword, contains keyword t) senior_keywords = true
  ↔ ∃ kw, kw ∈ senior_keywords ∧ is_substring kw t.
Proof.
  unfold any. rewrite existsb_exists.
  split; intros (kw & Hin & Hkw); exists kw.
  - apply list_elem_of_In in Hin. by apply contains_spec in Hkw.
  - apply list_elem_of_In in Hin. by apply contains_spec in Hkw.
Qed.

Lemma record_of_survives raw : is_Some (record_of raw) ↔ survives raw.
Proof.
  unfold record_of, survives. split.
  - intros [rec Hrec].
    destruct (raw !! "Name") as [name|]; [| done].
    destruct (raw !! "Title") as [title|]; [| done].
    destruct (raw !! "Company") as [company|]; [| done].
    cbn [mbind option_bind] in Hrec.
    destruct (decide _) as [(Hn & Ht & Hc)|]; [| done].
    destruct (any _ _) eqn:Hkw; [| done].
    destruct (find 32 (strip name)) as [k|] eqn:Hk; [| done].
    exists name, title, company. repeat (split; [done |]).
    split; [by apply any_keyword |].
    apply find_Some in Hk as [Hk _]. rewrite Hk.
    apply elem_of_app. right. left.
  - intros (name & title & company & -> & Hn & -> & Ht & -> & Hc & Hkw & Hsp).
    cbn [mbind option_bind]. rewrite decide_True by done.
    rewrite (proj2 (any_keyword (lower title)) Hkw).
    destruct (find 32 (strip name)) as [k|] eqn:Hk; [by eexists |].
    by apply find_None in Hk.
Qed.

(** The cells [to_csv] writes for a row that went through the five stages are
    those of [record_of] on the row of the workbook. *)
Lemma record_of_pipeline_row x :
  (λ ir, (λ c, ir.2 !! c) <$> final_columns) <$> pipeline_row x
  = record_of x.2.
Proof.
  destruct (pipeline_row x) as [r|] eqn:Hr.
  - pose proof (proj1 (pipeline_row_survives x) (mk_is_Some _ _ Hr)) as Hs.
    apply record_of_survives in Hs as [rec Hrec].
    apply pipeline_row_fields in Hr
      as (name & title & company & k & Hn & Ht & Hc & Hk & _ & _ & Ht' & Hc'
          & Hf & Hl & _ & He1 & He2).
    unfold record_of in *. rewrite Hn, Ht, Hc in *.
    cbn [mbind option_bind] in *.
    destruct (decide _); [| done]. destruct (any _ _); [| done].
    rewrite Hk in *. cbn [mbind option_bind fmap option_fmap option_map].
    unfold final_columns. cbn [fmap list_fmap].
    rewrite Hf, Hl, Ht', Hc', He1, He2. done.
  - destruct (record_of x.2) as [rec|] eqn:Hrec; [| done].
    pose proof (proj1 (record_of_survives x.2) (mk_is_Some _ _ Hrec)) as Hs.
    apply pipeline_row_survives in Hs as [r Hr']. congruence.
Qed.

Lemma omap_indexed {A B} (f : A → option B) (j : nat → nat) (l : list A) :
  omap (λ x, f x.2) (imap (λ i raw, (j i, raw)) l) = omap f l.
Proof.
  revert j. induction l as [|a l IH]; intros j; [done |].
  rewrite imap_cons. csimpl.
  rewrite <- (IH (j ∘ S)). done.
Qed.

(** The records of the last frame are those of the rows of the workbook,
    each on its own. *)
Lemma final_records sh :
  (λ ir, (λ c, ir.2 !! c) <$> final_columns) <$> final_rows sh
  = omap record_of (sheet_rows sh).
Proof.
  unfold final_rows, indexed. rewrite omap_fmap_Some.
  rewrite <- (omap_indexed record_of id).
  apply list_omap_ext, Forall2_same_length_lookup. split; [done |].
  intros i x y Hx Hy. unfold id in Hy. rewrite Hx in Hy. injection Hy as <-.
  apply record_of_pipeline_row.
Qed.

Lemma final_rows_nil sh :
  final_rows sh = [] ↔ omap record_of (sheet_rows sh) = [].
Proof.
  rewrite <- final_records. split; [by intros -> |].
  by intros ?%fmap_nil_inv.
Qed.

End Records.

Section MainProperties.

Context `{UnicodeTables} {console : Console}.

Lemma stdout_written cfg sh w :
  stdout (written cfg sh w)
  = stdout w ++ [Generated (length (rows (final_frame cfg sh)));
                 SavedTo (OUTPUT_FILE cfg)].
Proof. unfold written, emit. cbn [stdout]. by rewrite <- app_assoc. Qed.

Lemma final_frame_length cfg sh :
  length (rows (final_frame cfg sh))
  = length (take (MAX_EXECUTIVES cfg) (omap record_of (sheet_rows sh))).
Proof.
  unfold final_frame, head. cbn [rows].
  rewrite <- final_records, !length_take, !length_fmap. done.
Qed.

Lemma parent_made p w : p ∈ directories (mkdir_parents p w).
Proof.
  unfold mkdir_parents. cbn [directories].
  apply elem_of_union_r, elem_of_list_to_set, list_elem_of_fmap.
  exists (length p). split; [by rewrite firstn_all |].
  apply elem_of_seq. lia.
Qed.

(** What a run that succeeds writes, as a function of the workbook. *)
Lemma written_records cfg sh w :
  csv_files (written cfg sh w) !! OUTPUT_FILE cfg
  = Some {| csv_header := final_columns;
            csv_records := take (MAX_EXECUTIVES cfg)
                             (omap record_of (sheet_rows sh)) |}.
Proof. by rewrite written_csv, csv_of_final_frame, final_records. Qed.

(** A run that succeeds had the three columns and a row with a record. *)
Lemma main_Ok_records cfg w sh :
  excel_files w !! INPUT_FILE cfg = Some sh →
  (main cfg w).2 = Ok () →
  ["Name"; "Title"; "Company"] ⊆ sheet_columns sh
  ∧ omap record_of (sheet_rows sh) ≠ [].
Proof.
  intros Hsh Hok.
  destruct (proj1 (main_Ok_iff cfg w) Hok) as (sh' & Hsh' & Hcols & Hrows & _).
  simplify_eq. split; [done |]. by rewrite <- final_rows_nil.
Qed.


(** X1. When a run on a workbook succeeds, the workbook has the columns
    Name, Title and Company and at least one of its rows has a record: the
    three cells are not blank, the lowered title holds a keyword and the
    trimmed name holds a space. The run has written, under the header
    FirstName, LastName, Title, Company, Email_1, Email_2, the records of the
    first [MAX_EXECUTIVES] such rows in the order of the workbook, each
    computed from its own row alone; it has printed the number of records
    written and the output path, and it has made the directory of the output
    file. *)
Theorem main_writes_a_record_per_row cfg w sh :
  excel_files w !! INPUT_FILE cfg = Some sh →
  (main cfg w).2 = Ok () →
  ["Name"; "Title"; "Company"] ⊆ sheet_columns sh
  ∧ omap record_of (sheet_rows sh) ≠ []
  ∧ csv_files (main cfg w).1 !! OUTPUT_FILE cfg
    = Some {| csv_header := ["FirstName"; "LastName"; "Title"; "Company";
                             "Email_1"; "Email_2"];
              csv_records := take (MAX_EXECUTIVES cfg)
                               (omap record_of (sheet_rows sh)) |}
  ∧ stdout (main cfg w).1
    = stdout w
      ++ [Generated (length (take (MAX_EXECUTIVES cfg)
                               (omap record_of (sheet_rows sh))));
          SavedTo (OUTPUT_FILE cfg)]
  ∧ parent (OUTPUT_FILE cfg) ∈ directories (main cfg w).1.
Proof.
  intros Hsh Hok.
  destruct (main_Ok_records cfg w sh Hsh Hok) as [Hcols Hrows].
  split; [done |]. split; [done |].
  rewrite (main_Ok_world cfg w sh Hsh Hok).
  split; [apply written_records |]. split.
  - by rewrite stdout_written, final_frame_length.
  - unfold written, emit, exported, to_csv. cbn [directories]. apply parent_made.
Qed.



Lemma take_prefix_app {A} n (a b : list A) :
  take n a `prefix_of` take n (a ++ b).
Proof. rewrite take_app. by apply prefix_app_r. Qed.

(** X4. Appending rows to a workbook never changes the records already
    written: when a run on a workbook and a run on the workbook with more
    rows after it both succeed, the second file has the header of the first
    and starts with its records. *)
Theorem main_output_grows cfg w1 w2 sh1 sh2 more csv1 csv2 :
  excel_files w1 !! INPUT_FILE cfg = Some sh1 →
  excel_files w2 !! INPUT_FILE cfg = Some sh2 →
  sheet_rows sh2 = sheet_rows sh1 ++ more →
  (main cfg w1).2 = Ok () →
  (main cfg w2).2 = Ok () →
  csv_files (main cfg w1).1 !! OUTPUT_FILE cfg = Some csv1 →
  csv_files (main cfg w2).1 !! OUTPUT_FILE cfg = Some csv2 →
  csv_header csv2 = csv_header csv1
  ∧ csv_records csv1 `prefix_of` csv_records csv2.
Proof.
  intros Hsh1 Hsh2 Hmore Hok1 Hok2 Hcsv1 Hcsv2.
  rewrite (main_Ok_world cfg w1 sh1 Hsh1 Hok1), written_records in Hcsv1.
  rewrite (main_Ok_world cfg w2 sh2 Hsh2 Hok2), written_records in Hcsv2.
  injection Hcsv1 as <-. injection Hcsv2 as <-.
  cbn [csv_header csv_records]. split; [done |].
  rewrite Hmore, omap_app. apply take_prefix_app.
Qed.



(** X6. The script can be run again: with its own configuration, a run
    right after one that succeeded succeeds too, leaves the workbooks, the
    output files and the directories as the first run left them, and prints
    the same lines again. *)
Theorem main_repeatable script_dir w w1 w2 r :
  main (default_config script_dir) w = (w1, Ok ()) →
  main (default_config script_dir) w1 = (w2, r) →
  r = Ok ()
  ∧ excel_files w2 = excel_files w
  ∧ csv_files w2 = csv_files w1
  ∧ directories w2 = directories w1
  ∧ ∃ out, stdout w1 = stdout w ++ out ∧ stdout w2 = stdout w1 ++ out.
Proof.
  set (cfg := default_config script_dir). intros Hrun1 Hrun2.
  assert ((main cfg w).2 = Ok ()) as Hok1 by (by rewrite Hrun1).
  destruct (proj1 (main_Ok_iff cfg w) Hok1) as (sh & Hsh & Hcols & Hrows & Hp).
  pose proof (main_Ok_world cfg w sh Hsh Hok1) as Hw1.
  rewrite Hrun1 in Hw1. cbn [fst] in Hw1.
  assert (excel_files w1 !! INPUT_FILE cfg = Some sh) as Hsh1 by (by rewrite Hw1).
  assert ((main cfg w1).2 = Ok ()) as Hok2
    by (apply main_Ok_iff; by exists sh).
  pose proof (main_Ok_world cfg w1 sh Hsh1 Hok2) as Hw2.
  rewrite Hrun2 in Hok2, Hw2. cbn [fst snd] in Hok2, Hw2.
  split; [done |]. rewrite Hw2. split; [by rewrite Hw1 |]. split; [| split].
  - rewrite Hw1. unfold written, emit, exported, to_csv, mkdir_parents.
    cbn [csv_files]. by rewrite insert_insert_eq.
  - unfold written, emit, exported, to_csv, mkdir_parents. cbn [directories].
    rewrite Hw1. unfold written, emit, exported, to_csv, mkdir_parents.
    cbn [directories]. by rewrite <- union_assoc_L, union_idemp_L.
  - eexists. split; [by rewrite Hw1, stdout_written |].
    by rewrite stdout_written.
Qed.

End MainProperties.

(** ** The theorems at concrete inputs *)

Lemma filter_senior_execs_keeps_keyword_titles_witness :
  "Title" ∈ columns titles_frame
  ∧ rows titles_frame ≠ []
  ∧ (∀ ir, ir ∈ rows titles_frame → has_text "Title" ir.2)
  ∧ ∃ df', filter_senior_execs (H := unchanged) titles_frame = Ok df'
      ∧ rows df'
        = [ (0, {[ "Title" := CStr (u "Vice President of Engineering") ]}) ].
Proof.
  assert ("Title" ∈ columns titles_frame) as H1 by compute_done.
  assert (rows titles_frame ≠ []) as H2 by done.
  assert (∀ ir, ir ∈ rows titles_frame → has_text "Title" ir.2) as H3.
  { intros ir Hir.
    repeat (apply elem_of_cons in Hir as [-> | Hir]; [eexists; reflexivity |]).
    by apply elem_of_nil in Hir. }
  repeat (split; [assumption |]).
  destruct (filter_senior_execs_keeps_keyword_titles (H := unchanged)
              titles_frame H1 H3) as (_ & Hsome & _).
  destruct (Hsome H2) as (df' & Hok & _ & Hrows).
  exists df'. split; [exact Hok |]. rewrite Hrows. vm_compute. reflexivity.
Defined.

(** C1 as the specification words it fails on the record set without
    records: the words return it, the code raises; and so does a run on a
    workbook without data rows. *)
Lemma filter_senior_execs_fails_on_no_records :
  "Title" ∈ columns no_records
  ∧ filter (λ ir, is_senior (H := unchanged) ir.2 = true) (rows no_records) = []
  ∧ filter_senior_execs (H := unchanged) no_records
    = Raise (KeyError [LStr "is_senior"])
  ∧ main (H := unchanged) (console := utf8_console) demo_config
      headers_only_world
    = (headers_only_world, Raise (KeyError [LStr "is_senior"])).
Proof.
  split; [compute_done |]. split; [reflexivity |].
  split; vm_compute; reflexivity.
Qed.

Lemma split_names_at_first_space_witness :
  "Name" ∈ columns names_frame
  ∧ (∃ ir x, ir ∈ rows names_frame ∧ ir.2 !! "Name" = Some (CStr x)
             ∧ 32%N ∈ strip x)
  ∧ ∃ df', split_names names_frame = Ok df'
      ∧ rows df'
        = [ (0, {[ "Name" := CStr (u "A B C"); "FirstName" := CStr (u "A");
                   "LastName" := CStr (u "B C") ]}) ].
Proof.
  assert ("Name" ∈ columns names_frame) as H1 by compute_done.
  assert (∃ ir x, ir ∈ rows names_frame ∧ ir.2 !! "Name" = Some (CStr x)
                  ∧ 32%N ∈ strip x) as H2.
  { exists (0, {[ "Name" := CStr (u "A B C") ]}), (u "A B C").
    split; [left |]. split; [reflexivity |]. vm_compute. right. left. }
  repeat (split; [assumption |]).
  destruct (split_names_at_first_space names_frame H1 H2)
    as (df' & Hok & Hrows & _).
  exists df'. split; [exact Hok |]. rewrite Hrows. vm_compute. reflexivity.
Defined.

(** C2 as the specification words it fails on a name with two spaces, which
    the words split into "A" and "B" and the code into "A" and " B", and on a
    name with a tabulator, which the words split and the code drops. *)
Lemma split_names_not_whitespace_run :
  spec_split_name (u "A  B") = Some (u "A", u "B")
  ∧ split_names two_spaces_frame
    = Ok {| columns := ["Name"; "FirstName"; "LastName"];
            rows := [ (0, {[ "Name" := CStr (u "A  B");
                             "FirstName" := CStr (u "A");
                             "LastName" := CStr (u " B") ]}) ] |}
  ∧ spec_split_name (u "A" ++ [9%N] ++ u "B") = Some (u "A", u "B")
  ∧ split_names tab_frame
    = Ok {| columns := ["Name"; "FirstName"; "LastName"];
            rows := [ (1, {[ "Name" := CStr (u "C D");
                             "FirstName" := CStr (u "C");
                             "LastName" := CStr (u "D") ]}) ] |}.
Proof. repeat split; vm_compute; reflexivity. Qed.

Lemma infer_domain_deterministic_not_idempotent_witness :
  u "acme" = u "acme"
  ∧ infer_domain (H := unchanged) (infer_domain (H := unchanged) (u "acme"))
    ≠ infer_domain (H := unchanged) (u "acme").
Proof.
  split; [reflexivity |].
  apply (infer_domain_deterministic_not_idempotent (H := unchanged)
           (u "acme") (u "acme")).
  reflexivity.
Defined.

(** C4 as the specification words it fails on the company "acme". *)
Lemma infer_domain_not_idempotent :
  infer_domain (H := unchanged) (u "acme") = u "acme.com"
  ∧ infer_domain (H := unchanged) (infer_domain (H := unchanged) (u "acme"))
    = u "acmecom.com".
Proof. split; vm_compute; reflexivity. Qed.




Lemma sheet_has_columns :
  ["Name"; "Title"; "Company"] ⊆ sheet_columns demo_sheet.
Proof. apply missing_nil. vm_compute. reflexivity. Qed.

Lemma load_data_drops_blank_rows_witness :
  excel_files demo_world !! INPUT_FILE demo_config = Some demo_sheet
  ∧ ["Name"; "Title"; "Company"] ⊆ sheet_columns demo_sheet
  ∧ ∃ df, load_data demo_world (INPUT_FILE demo_config) = Ok df
      ∧ (4 ∉ index df)
      ∧ ∀ df2, filter_senior_execs (H := unchanged) df = Ok df2 → 4 ∉ index df2.
Proof.
  assert (excel_files demo_world !! INPUT_FILE demo_config = Some demo_sheet)
    as H1 by (vm_compute; reflexivity).
  pose proof sheet_has_columns as H2.
  repeat (split; [assumption |]).
  destruct (load_data_drops_blank_rows (H := unchanged) demo_world
              (INPUT_FILE demo_config) demo_sheet H1 H2)
    as (df & Hok & _ & _ & Hdrop).
  exists df. split; [exact Hok |].
  destruct (Hdrop 4 {[ "Name" := u "No Title"; "Company" := u "Cher Co" ]}
              "Title") as [Hout Hnext].
  - reflexivity.
  - compute_done.
  - left. reflexivity.
  - split; [exact Hout |]. intros df2 Hdf2. by apply Hnext in Hdf2 as [? _].
Defined.



Lemma main_raises_when_no_row_survives_witness :
  excel_files one_token_world !! INPUT_FILE demo_config = Some one_token_sheet
  ∧ ["Name"; "Title"; "Company"] ⊆ sheet_columns one_token_sheet
  ∧ final_rows (H := unchanged) one_token_sheet = []
  ∧ ∃ e, main (H := unchanged) (console := utf8_console)
           demo_config one_token_world
         = (one_token_world, Raise e)
         ∧ ¬ FileError e ∧ ¬ FormatError e.
Proof.
  assert (excel_files one_token_world !! INPUT_FILE demo_config
          = Some one_token_sheet) as H1 by (vm_compute; reflexivity).
  assert (["Name"; "Title"; "Company"] ⊆ sheet_columns one_token_sheet) as H2
    by (apply missing_nil; vm_compute; reflexivity).
  assert (final_rows (H := unchanged) one_token_sheet = []) as H3
    by (vm_compute; reflexivity).
  repeat (split; [assumption |]).
  apply (main_raises_when_no_row_survives (H := unchanged) demo_config
           one_token_world one_token_sheet H1 H2 H3).
Defined.

Lemma main_writes_a_record_per_row_witness :
  excel_files demo_world !! INPUT_FILE demo_config = Some demo_sheet
  ∧ (main (H := unchanged) (console := utf8_console)
       demo_config demo_world).2 = Ok ()
  ∧ csv_files (main (H := unchanged) (console := utf8_console)
                 demo_config demo_world).1
      !! OUTPUT_FILE demo_config
    = Some {| csv_header := ["FirstName"; "LastName"; "Title"; "Company";
                             "Email_1"; "Email_2"];
              csv_records :=
                [ [ Some (CStr (u "Jane")); Some (CStr (u "Doe"));
                    Some (CStr (u "Chief Marketing Officer"));
                    Some (CStr (u "World Surf League"));
                    Some (CStr (u "jane.doe@worldsurfleague.com"));
                    Some (CStr (u "jane@worldsurfleague.com")) ];
                  [ Some (CStr (u "Mary")); Some (CStr (u "Ann Smith"));
                    Some (CStr (u "Vice President of Engineering"));
                    Some (CStr (u "AT&T"));
                    Some (CStr (u "mary.ann smith@att.com"));
                    Some (CStr (u "mary@att.com")) ] ] |}
  ∧ stdout (main (H := unchanged) (console := utf8_console)
              demo_config demo_world).1
    = [Generated 2; SavedTo (OUTPUT_FILE demo_config)].
Proof.
  assert (excel_files demo_world !! INPUT_FILE demo_config = Some demo_sheet)
    as H1 by (vm_compute; reflexivity).
  assert ((main (H := unchanged) (console := utf8_console)
             demo_config demo_world).2 = Ok ()) as H2
    by (vm_compute; reflexivity).
  split; [exact H1 |]. split; [exact H2 |].
  destruct (main_writes_a_record_per_row (H := unchanged)
              (console := utf8_console) demo_config demo_world demo_sheet
              H1 H2) as (_ & _ & Hcsv & Hout & _).
  split.
  - rewrite Hcsv. vm_compute. reflexivity.
  - rewrite Hout. vm_compute. reflexivity.
Defined.


Lemma main_output_grows_witness :
  excel_files fixture_world !! INPUT_FILE demo_config = Some fixture_sheet
  ∧ excel_files demo_world !! INPUT_FILE demo_config = Some demo_sheet
  ∧ sheet_rows demo_sheet
    = sheet_rows fixture_sheet ++ drop 1 (sheet_rows demo_sheet)
  ∧ (main (H := unchanged) (console := utf8_console)
       demo_config fixture_world).2 = Ok ()
  ∧ (main (H := unchanged) (console := utf8_console)
       demo_config demo_world).2 = Ok ()
  ∧ ∃ csv1 csv2,
      csv_files (main (H := unchanged) (console := utf8_console)
                   demo_config fixture_world).1
        !! OUTPUT_FILE demo_config = Some csv1
      ∧ csv_files (main (H := unchanged) (console := utf8_console)
                     demo_config demo_world).1
          !! OUTPUT_FILE demo_config = Some csv2
      ∧ length (csv_records csv1) = 1
      ∧ length (csv_records csv2) = 2
      ∧ csv_records csv1 `prefix_of` csv_records csv2.
Proof.
  assert (excel_files fixture_world !! INPUT_FILE demo_config
          = Some fixture_sheet) as H1 by (vm_compute; reflexivity).
  assert (excel_files demo_world !! INPUT_FILE demo_config = Some demo_sheet)
    as H2 by (vm_compute; reflexivity).
  assert (sheet_rows demo_sheet
          = sheet_rows fixture_sheet ++ drop 1 (sheet_rows demo_sheet)) as H3
    by reflexivity.
  assert ((main (H := unchanged) (console := utf8_console)
             demo_config fixture_world).2 = Ok ()) as H4
    by (vm_compute; reflexivity).
  assert ((main (H := unchanged) (console := utf8_console)
             demo_config demo_world).2 = Ok ()) as H5
    by (vm_compute; reflexivity).
  split; [exact H1 |]. split; [exact H2 |]. split; [exact H3 |].
  split; [exact H4 |]. split; [exact H5 |].
  destruct (csv_files (main (H := unchanged) (console := utf8_console)
                         demo_config fixture_world).1
              !! OUTPUT_FILE demo_config) as [csv1|] eqn:H6.
  2:{ vm_compute in H6. discriminate H6. }
  destruct (csv_files (main (H := unchanged) (console := utf8_console)
                         demo_config demo_world).1
              !! OUTPUT_FILE demo_config) as [csv2|] eqn:H7.
  2:{ vm_compute in H7. discriminate H7. }
  destruct (main_output_grows (H := unchanged) (console := utf8_console)
              demo_config fixture_world demo_world fixture_sheet demo_sheet
              (drop 1 (sheet_rows demo_sheet)) csv1 csv2
              H1 H2 H3 H4 H5 H6 H7) as [_ Hprefix].
  exists csv1, csv2.
  split; [reflexivity |]. split; [reflexivity |].
  split; [| split; [| exact Hprefix]].
  - vm_compute in H6. injection H6 as <-. reflexivity.
  - vm_compute in H7. injection H7 as <-. reflexivity.
Defined.


Lemma main_repeatable_witness :
  main (H := unchanged) (console := utf8_console)
    (default_config ["srv"]) demo_world
  = ((main (H := unchanged) (console := utf8_console)
        (default_config ["srv"]) demo_world).1, Ok ())
  ∧ (main (H := unchanged) (console := utf8_console) (default_config ["srv"])
       (main (H := unchanged) (console := utf8_console)
          (default_config ["srv"]) demo_world).1).2
    = Ok ()
  ∧ stdout (main (H := unchanged) (console := utf8_console)
              (default_config ["srv"])
              (main (H := unchanged) (console := utf8_console)
                 (default_config ["srv"]) demo_world).1).1
    = [Generated 2; SavedTo ["srv"; "output"; "senior_exec_emails.csv"];
       Generated 2; SavedTo ["srv"; "output"; "senior_exec_emails.csv"]].
Proof.
  assert (main (H := unchanged) (console := utf8_console)
            (default_config ["srv"]) demo_world
          = ((main (H := unchanged) (console := utf8_console)
                (default_config ["srv"]) demo_world).1,
             Ok ())) as H1.
  { rewrite (surjective_pairing (main _ demo_world)) at 1.
    f_equal; vm_compute; reflexivity. }
  split; [exact H1 |].
  destruct (main_repeatable (H := unchanged) ["srv"] demo_world _ _ _ H1
              (surjective_pairing _))
    as (Hok & _ & _ & _ & out & Hout1 & Hout2).
  split; [exact Hok |].
  rewrite Hout2.
  assert (out = drop 0 (stdout (main (H := unchanged) (console := utf8_console)
                                  (default_config ["srv"])
                                  demo_world).1)) as ->.
  { rewrite Hout1. reflexivity. }
  vm_compute. reflexivity.
Defined.

Lemma split_names_round_trip_witness :
  ∃ df', split_names names_frame = Ok df'
    ∧ "Name" ∈ columns names_frame
    ∧ rows df'
      = [ (0, {[ "Name" := CStr (u "A B C"); "FirstName" := CStr (u "A");
                 "LastName" := CStr (u "B C") ]}) ].
Proof.
  eexists. split; [vm_compute; reflexivity |].
  split; [| vm_compute; reflexivity].
  eapply proj1, split_names_round_trip.
  vm_compute. reflexivity.
Defined.

Lemma add_domains_adds_domain_witness :
  "Company" ∈ columns companies_frame
  ∧ (∀ ir, ir ∈ rows companies_frame → has_text "Company" ir.2)
  ∧ ∃ df', add_domains (H := unchanged) companies_frame = Ok df'
      ∧ columns df' = ["Company"; "Domain"]
      ∧ (λ ir, ir.2 !! "Domain") <$> rows df'
        = [Some (CStr (u "att.com")); Some (CStr (u "worldsurfleague.com"))]
      ∧ add_domains (H := unchanged) df' = Ok df'.
Proof.
  assert ("Company" ∈ columns companies_frame) as H1 by compute_done.
  assert (∀ ir, ir ∈ rows companies_frame → has_text "Company" ir.2) as H2.
  { intros ir Hir.
    repeat (apply elem_of_cons in Hir as [-> | Hir]; [eexists; reflexivity |]).
    by apply elem_of_nil in Hir. }
  repeat (split; [assumption |]).
  destruct (add_domains_adds_domain (H := unchanged) companies_frame H1 H2)
    as (df' & Hok & Hcols & _ & Hagain).
  exists df'. split; [exact Hok |].
  assert (Ok df' = add_domains (H := unchanged) companies_frame) as Heq
    by (symmetry; exact Hok).
  vm_compute in Heq. split; [| split; [| exact Hagain]].
  - injection Heq as ->. vm_compute. reflexivity.
  - injection Heq as ->. vm_compute. reflexivity.
Defined.

Lemma filter_senior_execs_idempotent_witness :
  "Title" ∈ columns titles_frame
  ∧ (∀ ir, ir ∈ rows titles_frame → has_text "Title" ir.2)
  ∧ (∃ ir, ir ∈ rows titles_frame ∧ is_senior (H := unchanged) ir.2 = true)
  ∧ ∃ df', filter_senior_execs (H := unchanged) titles_frame = Ok df'
      ∧ rows df' ≠ []
      ∧ filter_senior_execs (H := unchanged) df' = Ok df'.
Proof.
  assert ("Title" ∈ columns titles_frame) as H1 by compute_done.
  assert (∀ ir, ir ∈ rows titles_frame → has_text "Title" ir.2) as H2.
  { intros ir Hir.
    repeat (apply elem_of_cons in Hir as [-> | Hir]; [eexists; reflexivity |]).
    by apply elem_of_nil in Hir. }
  assert (∃ ir, ir ∈ rows titles_frame ∧ is_senior (H := unchanged) ir.2 = true)
    as H3.
  { eexists. split; [left |]. vm_compute. reflexivity. }
  repeat (split; [assumption |]).
  destruct (filter_senior_execs_idempotent (H := unchanged) titles_frame
              H1 H2 H3) as (df' & Hok & _ & Hne & _ & Hagain).
  exists df'. split; [exact Hok |]. split; [exact Hne | exact Hagain].
Defined.

Lemma filter_senior_execs_raises_witness :
  "Title" ∈ columns missing_title_frame
  ∧ (∃ ir, ir ∈ rows missing_title_frame ∧ has_text "Title" ir.2)
  ∧ (∃ ir, ir ∈ rows missing_title_frame ∧ ¬ has_text "Title" ir.2)
  ∧ filter_senior_execs (H := unchanged) missing_title_frame = Raise TypeError.
Proof.
  assert ("Title" ∈ columns missing_title_frame) as H1 by compute_done.
  assert (∃ ir, ir ∈ rows missing_title_frame ∧ has_text "Title" ir.2) as H2.
  { eexists. split; [left |]. eexists. reflexivity. }
  assert (∃ ir, ir ∈ rows missing_title_frame ∧ ¬ has_text "Title" ir.2) as H3.
  { eexists. split; [right; left |]. intros [t Ht]. discriminate Ht. }
  repeat (split; [assumption |]).
  apply (filter_senior_execs_raises (H := unchanged) missing_title_frame
           H1 H2 H3).
Defined.
